(** * bin_merger: the merge/layout engine of [merger.py]

    A shallow embedding of [calculate_crc32], [generate_aio_header],
    [generate_elan_header] and [merge_binaries], together with the
    properties of offset resolution, overlap composition, checksums and
    header serialisation.

    Python integers are unbounded, so offsets and sizes are [Z]; byte
    strings are [list byte]; the file system touched by [open] is a finite
    map from paths to contents. Python exceptions are the [Err] results.

    The pre-flight overlap check and [run_merge] of [main.py] and the test
    of [test_binaries.py] are embedded after the engine. *)

From Stdlib Require Import ZArith List Lia Bool.
From Stdlib Require Import Init.Byte.
From stdpp Require Import base gmap strings list.

Local Open Scope Z_scope.

(** ** Bytes *)

Abbreviation bytes := (list byte).

Definition byte_to_Z (b : byte) : Z := Z.of_N (Byte.to_N b).

(** The byte whose value is [z mod 256]. *)
Definition byte_of_Z (z : Z) : byte :=
  match Byte.of_N (Z.to_N (z mod 256)) with
  | Some b => b
  | None => x00
  end.

(** ** Exceptions *)

Inductive exn : Type :=
| OSError (path : string)        (* open() failed *)
| StructError                    (* struct.error: value out of range *)
| IndexError                     (* item assignment out of range *)
| AssertionError
| KeyError (key : string).

Inductive result (A : Type) : Type :=
| Ok (a : A)
| Err (e : exn).
Arguments Ok {A} a.
Arguments Err {A} e.

(** An exception aborts the rest of the computation. *)
#[global] Instance result_bind : MBind result := fun A B k r =>
  match r with
  | Ok a => k a
  | Err e => Err e
  end.

(** A [for] loop whose body may raise: the loop state is threaded from
    left to right and the first exception ends the loop. *)
Fixpoint for_each {S A : Type} (body : S -> A -> result S) (l : list A) (s : S)
  : result S :=
  match l with
  | [] => Ok s
  | x :: l' => s' ← body s x; for_each body l' s'
  end.

(** ** The file system seen through [open] *)

Record filesystem := {
  contents : gmap string bytes;   (* readable files *)
  unwritable : gset string        (* paths where open(path, "wb") fails *)
}.
(* A file is its path: two spellings of one path, or two links to one
   file, are two files here. *)

(** Code that performs I/O: it runs on a file system, leaves a file system
    behind and returns or raises. *)
Definition IO (A : Type) : Type := filesystem -> filesystem * result A.

#[global] Instance IO_ret : MRet IO := fun A a fs => (fs, Ok a).
#[global] Instance IO_bind : MBind IO := fun A B k m fs =>
  match m fs with
  | (fs', Ok a) => k a fs'
  | (fs', Err e) => (fs', Err e)
  end.

(** Code without I/O run inside code with I/O. *)
Definition pure {A} (r : result A) : IO A := fun fs => (fs, r).

Fixpoint for_each_io {S A : Type} (body : S -> A -> IO S) (l : list A) (s : S)
  : IO S :=
  match l with
  | [] => mret s
  | x :: l' => s' ← body s x; for_each_io body l' s'
  end.

(** [with open(filepath, "rb") as f: data = f.read()] *)
Definition read_file (filepath : string) : IO bytes := fun fs =>
  match contents fs !! filepath with
  | Some data => (fs, Ok data)
  | None => (fs, Err (OSError filepath))
  end.

(** [with open(output_filepath, "wb") as f: f.write(final_bin)]: the file
    is created or replaced by [data] unless it cannot be opened. A write
    that fails after the open, which has truncated the file by then, is
    outside the model. *)
Definition write_file (filepath : string) (data : bytes) : IO unit := fun fs =>
  if decide (filepath ∈ unwritable fs) then (fs, Err (OSError filepath))
  else ({| contents := <[filepath := data]> (contents fs);
           unwritable := unwritable fs |}, Ok tt).

(** ** Python slices on byte arrays *)

(** Index normalisation of a slice bound: negative bounds count from the
    end, and every bound is clamped to [0, len]. *)
Definition slice_index (len i : Z) : Z :=
  if i <? 0 then Z.max 0 (len + i) else Z.min i len.

(** [buf[lo:hi]] *)
Definition slice (buf : bytes) (lo hi : Z) : bytes :=
  let len := Z.of_nat (length buf) in
  let l := slice_index len lo in
  let h := Z.max l (slice_index len hi) in
  take (Z.to_nat (h - l)) (drop (Z.to_nat l) buf).

(** [buf[lo:hi] = data] on a bytearray (the array may change length). *)
Definition slice_assign (buf : bytes) (lo hi : Z) (data : bytes) : bytes :=
  let len := Z.of_nat (length buf) in
  let l := slice_index len lo in
  let h := Z.max l (slice_index len hi) in
  take (Z.to_nat l) buf ++ data ++ drop (Z.to_nat h) buf.

(** [buf[i] = v]: a negative index counts from the end; an index outside
    the array raises. *)
Definition setitem (buf : bytes) (i : Z) (v : byte) : result bytes :=
  let i := if i <? 0 then i + Z.of_nat (length buf) else i in
  if (0 <=? i) && (i <? Z.of_nat (length buf))
  then Ok (<[Z.to_nat i := v]> buf)
  else Err IndexError.

(** ** [struct] *)

(** The [width] low bytes of [v], least significant first. *)
Fixpoint le_bytes (width : nat) (v : Z) : bytes :=
  match width with
  | O => []
  | S w => byte_of_Z v :: le_bytes w (Z.shiftr v 8)
  end.

(** [struct.pack("<B" | "<H" | "<I", v)] for [width] 1, 2, 4: an unsigned
    little-endian field; a value that does not fit raises [struct.error]. *)
Definition struct_pack (width : nat) (v : Z) : result bytes :=
  if (0 <=? v) && (v <? 2 ^ (8 * Z.of_nat width))
  then Ok (le_bytes width v)
  else Err StructError.

(** [struct.pack_into(fmt, buffer, offset, v)]: a negative offset counts
    from the end of the buffer; a field that does not lie inside the
    buffer raises [struct.error]. *)
Definition struct_pack_into (width : nat) (buffer : bytes) (offset v : Z)
  : result bytes :=
  packed ← struct_pack width v;
  let offset :=
    if offset <? 0 then offset + Z.of_nat (length buffer) else offset in
  if (0 <=? offset) && (offset + Z.of_nat width <=? Z.of_nat (length buffer))
  then Ok (slice_assign buffer offset (offset + Z.of_nat width) packed)
  else Err StructError.

(** [struct.unpack("<...", b)[0]]: the reader's side, as used by
    [test_binaries.py] on the produced file. *)
Fixpoint le_value (b : bytes) : Z :=
  match b with
  | [] => 0
  | x :: b' => byte_to_Z x + 256 * le_value b'
  end.

(** ** Constants of [merger.py] *)

Definition AIO_MAGIC : bytes := [x41; x49; x4f; x48].      (* b"AIOH" *)
Definition ELAN_VENDOR_ID : Z := 0x04F3.
Definition ELAN_PRODUCT_ID : bytes := [x08; x56].
Definition CRC32_POLY : Z := 0xEDB88320.

(** ** [calculate_crc32] *)

(** [binascii.crc32] is a function of Python's standard library, the
    CRC-32 of zlib: reflected polynomial [CRC32_POLY], initial value and
    final xor 0xFFFFFFFF. It is written here one bit at a time. *)

(** One step of the shift register. *)
Definition crc32_shift (crc : Z) : Z :=
  if Z.testbit crc 0 then Z.lxor (Z.shiftr crc 1) CRC32_POLY
  else Z.shiftr crc 1.

Definition crc32_update (crc : Z) (b : byte) : Z :=
  Nat.iter 8 crc32_shift (Z.lxor crc (byte_to_Z b)).

Definition binascii_crc32 (data : bytes) : Z :=
  Z.lxor (fold_left crc32_update data 0xFFFFFFFF) 0xFFFFFFFF.

Definition calculate_crc32 (data : bytes) : Z :=
  Z.land (binascii_crc32 data) 0xFFFFFFFF.

(** ** [generate_aio_header] *)

Definition generate_aio_header (fw_count : Z) : result bytes :=
  let total_header_size := 0x20 + fw_count * 0x50 in
  let magic := AIO_MAGIC in
  let version := [x01; x00] in
  header_size ← struct_pack 2 total_header_size;
  let dev_type := [x01] in
  let fw_version := [x78; x56; x34; x12] in
  let update_ctrl := [x00] in
  fw_count_byte ← struct_pack 1 fw_count;
  let reserved := replicate 17 xff in
  let header := magic ++ version ++ header_size ++ dev_type ++ fw_version
                ++ update_ctrl ++ fw_count_byte ++ reserved in
  if Z.of_nat (length header) =? 0x20 then Ok header else Err AssertionError.

(** ** [generate_elan_header] *)

Definition generate_elan_header (fw_offset fw_size crc32_val : Z)
  : result bytes :=
  let header := replicate 0x50%nat x00 in
  header ← struct_pack_into 2 header 0x0000 ELAN_VENDOR_ID;
  let header := slice_assign header 0x0022 0x0024 ELAN_PRODUCT_ID in
  let header := slice_assign header 0x0024 0x0026 [xff; xff] in
  let header := slice_assign header 0x0026 0x0028 [x34; x12] in
  header ← struct_pack_into 4 header 0x0028 fw_offset;
  header ← struct_pack_into 4 header 0x002C fw_size;
  header ← struct_pack_into 4 header 0x0030 crc32_val;
  for_each (fun header i => setitem header i xff) (seqZ 0x40 0x10) header.

(** ** [merge_binaries] *)

(** An element of [targets]: [{"path": ..., "offset": ...}]; a missing or
    [None] offset is [None]. *)
Record target := {
  t_path : string;
  t_offset : option Z
}.

(** An element of [fw_data_list]; the ["crc"] key is added by step 3. *)
Record fw_entry := {
  fw_data : bytes;
  fw_offset : Z;
  fw_size : Z;
  fw_crc : option Z
}.

(** [total_header_size], as [generate_aio_header] and [merge_binaries]
    compute it from the number of entries. *)
Definition header_size_of (fw_count : Z) : Z := 0x20 + fw_count * 0x50.

(** The offset rules of step 1. *)
Definition resolve_offset (total_header_size current_offset : Z)
  (offset : option Z) : Z :=
  match offset with
  | None => Z.max current_offset total_header_size
  | Some offset =>
      if offset <? total_header_size then total_header_size else offset
  end.

(** Body of the loop of step 1 over the state
    [(fw_data_list, current_offset)]. *)
Definition gather_body (total_header_size : Z) (st : list fw_entry * Z)
  (t : target) : IO (list fw_entry * Z) :=
  let '(fw_data_list, current_offset) := st in
  let filepath := t_path t in
  let offset := t_offset t in
  data ← read_file filepath;
  let offset := resolve_offset total_header_size current_offset offset in
  let size := Z.of_nat (length data) in
  mret (fw_data_list ++ [{| fw_data := data; fw_offset := offset;
                            fw_size := size; fw_crc := None |}],
        offset + size).

(** Step 1: gather all file data and resolve the offsets. *)
Definition gather (total_header_size : Z) (targets : list target)
  : IO (list fw_entry) :=
  st ← for_each_io (gather_body total_header_size) targets
         ([], total_header_size);
  mret (fst st).

(** Step 2, first loop: the end of the image. *)
Definition find_max_end (total_header_size : Z) (fw_data_list : list fw_entry)
  : Z :=
  fold_left (fun max_end t =>
               let end_pos := fw_offset t + fw_size t in
               if end_pos >? max_end then end_pos else max_end)
            fw_data_list total_header_size.

(** Step 2, second loop: payloads copied in list order. *)
Definition copy_payloads (fw_data_list : list fw_entry) (final_bin : bytes)
  : bytes :=
  fold_left (fun final_bin t =>
               let ofs := fw_offset t in
               let sz := fw_size t in
               slice_assign final_bin ofs (ofs + sz) (fw_data t))
            fw_data_list final_bin.

(** Step 3: checksums of the composited ranges. *)
Definition set_crcs (final_bin : bytes) (fw_data_list : list fw_entry)
  : list fw_entry :=
  map (fun t =>
         let ofs := fw_offset t in
         let sz := fw_size t in
         {| fw_data := fw_data t; fw_offset := ofs; fw_size := sz;
            fw_crc := Some (calculate_crc32 (slice final_bin ofs (ofs + sz))) |})
      fw_data_list.

(** Step 5: the entry headers, concatenated in list order. *)
Definition generate_elan_headers (fw_data_list : list fw_entry) : result bytes :=
  for_each (fun elan_headers t =>
              crc ← match fw_crc t with
                    | Some c => Ok c
                    | None => Err (KeyError "crc")
                    end;
              h ← generate_elan_header (fw_offset t) (fw_size t) crc;
              Ok (elan_headers ++ h))
           fw_data_list [].

Definition merge_binaries (targets : list target) (output_filepath : string)
  : IO (Z * Z) :=
  let fw_count := Z.of_nat (length targets) in
  let total_header_size := 0x20 + fw_count * 0x50 in
  fw_data_list ← gather total_header_size targets;
  let max_end := find_max_end total_header_size fw_data_list in
  (* bytearray(max_end): an allocation that fails is outside the model *)
  let final_bin := replicate (Z.to_nat max_end) x00 in
  let final_bin := copy_payloads fw_data_list final_bin in
  let fw_data_list := set_crcs final_bin fw_data_list in
  aio_header ← pure (generate_aio_header fw_count);
  elan_headers ← pure (generate_elan_headers fw_data_list);
  let final_bin :=
    slice_assign final_bin 0 total_header_size (aio_header ++ elan_headers) in
  _ ← write_file output_filepath final_bin;
  mret (total_header_size, max_end).

(** The entries as resolved by step 1 of a merge of [targets]. *)
Definition resolved (fs : filesystem) (targets : list target)
  : result (list fw_entry) :=
  snd (gather (header_size_of (Z.of_nat (length targets))) targets fs).

(** ** Reading a produced image back *)

(** [struct.unpack] of the [width]-byte field at [pos]. *)
Definition field (image : bytes) (pos : Z) (width : Z) : Z :=
  le_value (slice image pos (pos + width)).

Definition parse_header_size (image : bytes) : Z := field image 0x06 2.
Definition parse_entry_count (image : bytes) : Z := field image 0x0E 1.
Definition entry_header_pos (i : nat) : Z := 0x20 + Z.of_nat i * 0x50.
Definition parse_entry_offset (image : bytes) (i : nat) : Z :=
  field image (entry_header_pos i + 0x28) 4.
Definition parse_entry_size (image : bytes) (i : nat) : Z :=
  field image (entry_header_pos i + 0x2C) 4.
Definition parse_entry_crc (image : bytes) (i : nat) : Z :=
  field image (entry_header_pos i + 0x30) 4.

(** ** The scenario of [test_binaries.py] *)

Module Scenario.
Definition fs : filesystem :=
  {| contents := {[ "fw1.bin"%string := replicate 0x1000%nat xaa;
                    "fw2.bin"%string := replicate 0x200%nat xbb;
                    "fw3.bin"%string := replicate 0x50%nat xcc ]};
     unwritable := ∅ |}.
Definition targets : list target :=
  [ {| t_path := "fw1.bin"; t_offset := None |};
    {| t_path := "fw2.bin"; t_offset := Some 0x100 |};
    {| t_path := "fw3.bin"; t_offset := Some 0 |} ].
Definition image : bytes :=
  match contents (fst (merge_binaries targets "merged.bin" fs)) !! "merged.bin"%string with
  | Some b => b
  | None => []
  end.
End Scenario.

(** ** Notions used to state the properties *)

(** Step 1 written by recursion on the targets, with the cursor as an
    argument; [gather_resolve_from] shows that it is what the loop of
    [gather] computes. *)
Fixpoint resolve_from (fs : filesystem) (total_header_size current_offset : Z)
  (targets : list target) : result (list fw_entry) :=
  match targets with
  | [] => Ok []
  | t :: ts =>
      match contents fs !! t_path t with
      | None => Err (OSError (t_path t))
      | Some data =>
          let offset :=
            resolve_offset total_header_size current_offset (t_offset t) in
          let size := Z.of_nat (length data) in
          rest ← resolve_from fs total_header_size (offset + size) ts;
          Ok ({| fw_data := data; fw_offset := offset; fw_size := size;
                 fw_crc := None |} :: rest)
      end
  end.

(** End of an entry's resolved range. *)
Definition fw_end (e : fw_entry) : Z := fw_offset e + fw_size e.

(** Position [p] lies in the resolved range of [e]. *)
Definition covers (e : fw_entry) (p : Z) : Prop :=
  fw_offset e <= p < fw_end e.

(** Value of [current_offset] when entry [i] is resolved: the header size
    for the first entry, the end of entry [i - 1] afterwards. *)
Definition cursor_before (total_header_size : Z) (l : list fw_entry) (i : nat)
  : Z :=
  match i with
  | O => total_header_size
  | S j => match l !! j with
           | Some prev => fw_end prev
           | None => total_header_size
           end
  end.

(** Largest end among the entries of [l], and at least [total_header_size]. *)
Definition highest_end (total_header_size : Z) (l : list fw_entry) : Z :=
  foldr (fun e m => Z.max (fw_end e) m) total_header_size l.

(** The range of [e] lies inside an array of [n] bytes and is as long as
    the payload. *)
Definition fits (n : nat) (e : fw_entry) : Prop :=
  0 <= fw_offset e /\ fw_size e = Z.of_nat (length (fw_data e))
  /\ fw_end e <= Z.of_nat n.

(** [v] is an unsigned value of [width] bytes. *)
Definition fits_width (width : nat) (v : Z) : Prop :=
  0 <= v < 2 ^ (8 * Z.of_nat width).

#[local] Instance fits_width_dec width v : Decision (fits_width width v).
Proof. unfold fits_width. apply _. Defined.

(** The 32 bytes of a container header, field by field. *)
Definition aio_layout (fw_count : Z) : bytes :=
  AIO_MAGIC                                   (* 0x00 magic *)
  ++ [x01; x00]                               (* 0x04 version *)
  ++ le_bytes 2 (0x20 + fw_count * 0x50)      (* 0x06 header size *)
  ++ [x01]                                    (* 0x08 device type *)
  ++ [x78; x56; x34; x12]                     (* 0x09 firmware version *)
  ++ [x00]                                    (* 0x0D update control *)
  ++ le_bytes 1 fw_count                      (* 0x0E entry count *)
  ++ replicate 17%nat xff.                    (* 0x0F reserved *)

(** The 80 bytes of an entry header, field by field. *)
Definition elan_layout (fw_offset fw_size crc32_val : Z) : bytes :=
  le_bytes 2 ELAN_VENDOR_ID                   (* 0x00 vendor id *)
  ++ replicate 32%nat x00                     (* 0x02 never written *)
  ++ ELAN_PRODUCT_ID                          (* 0x22 product id *)
  ++ [xff; xff]                               (* 0x24 unique id *)
  ++ [x34; x12]                               (* 0x26 firmware version *)
  ++ le_bytes 4 fw_offset                     (* 0x28 data offset *)
  ++ le_bytes 4 fw_size                       (* 0x2C data size *)
  ++ le_bytes 4 crc32_val                     (* 0x30 checksum *)
  ++ replicate 12%nat x00                     (* 0x34 checksum padding *)
  ++ replicate 16%nat xff.                    (* 0x40 reserved *)

(** The entry header that step 5 emits for an entry carrying a checksum. *)
Definition entry_header (e : fw_entry) : bytes :=
  elan_layout (fw_offset e) (fw_size e) (default 0 (fw_crc e)).

(** The buffer after step 2: [max_end] zero bytes with the payloads of [l]
    copied over them. *)
Definition composited (total_header_size : Z) (l : list fw_entry) : bytes :=
  copy_payloads l
    (replicate (Z.to_nat (find_max_end total_header_size l)) x00).

(** The entries after step 3, checksums included, of a merge of [targets]. *)
Definition checksummed (fs : filesystem) (targets : list target)
  : result (list fw_entry) :=
  l ← resolved fs targets;
  Ok (set_crcs (composited (header_size_of (Z.of_nat (length targets))) l) l).

(** The reading of auto-append as "after the highest end of data seen so
    far": every entry without an offset starts at the largest end among
    the entries before it, and so inside none of their ranges. *)
Definition auto_append_after_highest (fs : filesystem) (targets : list target)
  : Prop :=
  forall l i t e,
    resolved fs targets = Ok l ->
    targets !! i = Some t -> t_offset t = None -> l !! i = Some e ->
    let header_size := header_size_of (Z.of_nat (length targets)) in
    fw_offset e = Z.max (highest_end header_size (take i l)) header_size
    /\ forall j prev, (j < i)%nat -> l !! j = Some prev ->
                      ~ covers prev (fw_offset e).

(** ** A small merge with overlapping explicit offsets *)

Module Overlap.
Definition fs : filesystem :=
  {| contents := {[ "a.bin"%string := replicate 16%nat xaa;
                    "b.bin"%string := replicate 4%nat xbb;
                    "c.bin"%string := replicate 4%nat xcc ]};
     unwritable := ∅ |}.
Definition targets : list target :=
  [ {| t_path := "a.bin"; t_offset := Some 0x200 |};
    {| t_path := "b.bin"; t_offset := Some 0x200 |};
    {| t_path := "c.bin"; t_offset := None |} ].
Definition a : fw_entry :=
  {| fw_data := replicate 16%nat xaa; fw_offset := 0x200; fw_size := 16;
     fw_crc := None |}.
Definition b : fw_entry :=
  {| fw_data := replicate 4%nat xbb; fw_offset := 0x200; fw_size := 4;
     fw_crc := None |}.
Definition c : fw_entry :=
  {| fw_data := replicate 4%nat xcc; fw_offset := 0x204; fw_size := 4;
     fw_crc := None |}.
Definition image : bytes :=
  match contents (fst (merge_binaries targets "out.bin" fs))
          !! "out.bin"%string with
  | Some b => b
  | None => []
  end.
End Overlap.

(** The reading of the entry header in which every byte outside the
    named fields, the gap between vendor id and product id included, is
    0xFF. *)
Definition gap_filled_with_ff (fw_offset fw_size crc32_val : Z) : Prop :=
  forall h, generate_elan_header fw_offset fw_size crc32_val = Ok h ->
            slice h 0x02 0x22 = replicate 32%nat xff.

(** ** Notions used by the further properties *)

(** Offset and size of [e] are unsigned 32-bit values, as the two fields
    of the entry header require. *)
Definition fits_entry_header (e : fw_entry) : Prop :=
  fits_width 4 (fw_offset e) /\ fits_width 4 (fw_size e).

#[local] Instance fits_entry_header_dec e : Decision (fits_entry_header e).
Proof. unfold fits_entry_header. apply _. Defined.

(** The image a merge writes: both headers, then the composited buffer
    from the header size on. *)
Definition merged_image (total_header_size : Z) (l : list fw_entry) : bytes :=
  aio_layout (Z.of_nat (length l))
  ++ concat (entry_header <$> set_crcs (composited total_header_size l) l)
  ++ drop (Z.to_nat total_header_size) (composited total_header_size l).

(** [struct.unpack("<B" | "<H" | "<I", b)[0]]: a string of another length
    than the format's raises [struct.error]. *)
Definition struct_unpack (width : nat) (b : bytes) : result Z :=
  if decide (length b = width) then Ok (le_value b) else Err StructError.

(** * [main.py]: the pre-flight overlap check of [MainWindow.run_merge] *)

(** [os.path.getsize(filepath)]. The size is that of the contents: a path
    whose size can be read while [open] fails on it (a directory) is
    outside the model. *)
Definition getsize (filepath : string) : IO Z := fun fs =>
  match contents fs !! filepath with
  | Some data => (fs, Ok (Z.of_nat (length data)))
  | None => (fs, Err (OSError filepath))
  end.

(** An element of [intervals]: [(idx, offset, end_offset, filepath)]. *)
Definition interval : Type := nat * Z * Z * string.

(** What a line of [overlaps_detected] reports: the two files and their
    address ranges. The line of text itself, these values formatted with
    base names and hexadecimal numbers, is not modelled. *)
Record overlap := {
  ov_prev_path : string;
  ov_path : string;
  ov_prev_start : Z;
  ov_prev_end : Z;
  ov_start : Z;
  ov_end : Z
}.

(** The variables of the pre-flight loop; [pf_skipped] holds the paths
    for which the loop logged that the size could not be read. *)
Record preflight_state := {
  pf_current_offset : Z;
  pf_intervals : list interval;
  pf_overlaps : list overlap;
  pf_skipped : list string
}.

(** The inner loop: the new range against every earlier interval. *)
Definition check_previous (offset end_offset : Z) (filepath : string)
  (intervals : list interval) (overlaps_detected : list overlap)
  : list overlap :=
  fold_left (fun overlaps_detected (iv : interval) =>
               let '(prev_idx, prev_start, prev_end, prev_path) := iv in
               if (offset <? prev_end) && (end_offset >? prev_start)
               then overlaps_detected
                    ++ [{| ov_prev_path := prev_path; ov_path := filepath;
                           ov_prev_start := prev_start; ov_prev_end := prev_end;
                           ov_start := offset; ov_end := end_offset |}]
               else overlaps_detected)
            intervals overlaps_detected.

(** Body of the loop over [enumerate(targets)]. Every target of
    [run_merge] comes from [get_data] and has the key ["offset"], so
    [target.get("offset", 0)] is its value. *)
Definition preflight_body (total_header_size : Z) (st : preflight_state)
  (it : nat * target) : IO preflight_state := fun fs =>
  let '(idx, t) := it in
  let filepath := t_path t in
  let offset := t_offset t in
  match getsize filepath fs with
  | (fs', Err (OSError _)) =>
      (* except OSError: log and continue *)
      (fs', Ok {| pf_current_offset := pf_current_offset st;
                  pf_intervals := pf_intervals st;
                  pf_overlaps := pf_overlaps st;
                  pf_skipped := pf_skipped st ++ [filepath] |})
  | (fs', Err e) => (fs', Err e)
  | (fs', Ok size) =>
      let offset :=
        match offset with
        | None => Z.max (pf_current_offset st) total_header_size
        | Some offset =>
            if offset <? total_header_size then total_header_size else offset
        end in
      let end_offset := offset + size in
      let overlaps_detected :=
        check_previous offset end_offset filepath (pf_intervals st)
          (pf_overlaps st) in
      (fs', Ok {| pf_current_offset := end_offset;
                  pf_intervals :=
                    pf_intervals st ++ [(idx, offset, end_offset, filepath)];
                  pf_overlaps := overlaps_detected;
                  pf_skipped := pf_skipped st |})
  end.

(** The pre-flight check of [run_merge], from the computation of
    [total_header_size] to the end of the loop. *)
Definition preflight (targets : list target) : IO preflight_state :=
  let total_header_size := 0x20 + Z.of_nat (length targets) * 0x50 in
  let current_offset := total_header_size in
  for_each_io (preflight_body total_header_size)
    (zip (seq 0 (length targets)) targets)
    {| pf_current_offset := current_offset; pf_intervals := [];
       pf_overlaps := []; pf_skipped := [] |}.

(** How [run_merge] ends: with one of its warnings, with a cancelled
    dialog, or with the result or the exception of [merge_binaries]. *)
Inductive outcome : Type :=
| NoRows
| NoValidTargets
| CancelledOnOverlap
| CancelledSave
| Merged (header_sz total_sz : Z)
| MergeFailed (e : exn).

(** The [try] block of [run_merge]: any exception of [merge_binaries] is
    caught and reported. *)
Definition try_merge (targets : list target) (save_path : string)
  : IO outcome := fun fs =>
  match merge_binaries targets save_path fs with
  | (fs', Ok (header_sz, total_sz)) => (fs', Ok (Merged header_sz total_sz))
  | (fs', Err e) => (fs', Ok (MergeFailed e))
  end.

(** [MainWindow.run_merge]. [rows] holds what [get_data] returns for each
    row ([None] for a row without path or with an offset that does not
    parse); [reply_yes] is the answer to the overlap question, asked only
    when overlaps were detected; [save_path] is what the save dialog
    returns, empty when it is cancelled. Log lines, message boxes and the
    progress bar are not modelled. *)
Definition run_merge (rows : list (option target)) (reply_yes : bool)
  (save_path : string) : IO outcome :=
  match rows with
  | [] => (mret NoRows : IO outcome)
  | _ :: _ =>
      let targets := omap id rows in
      match targets with
      | [] => (mret NoValidTargets : IO outcome)
      | _ :: _ =>
          st ← preflight targets;
          let declined :=
            match pf_overlaps st with
            | [] => false
            | _ :: _ => negb reply_yes
            end in
          if declined then (mret CancelledOnOverlap : IO outcome)
          else if decide (save_path = EmptyString)
               then (mret CancelledSave : IO outcome)
               else try_merge targets save_path
      end
  end.

(** The intervals of the entries [l] resolved from [targets], numbered
    from [k]. *)
Fixpoint intervals_of (k : nat) (targets : list target) (l : list fw_entry)
  : list interval :=
  match targets, l with
  | t :: ts, e :: l' =>
      (k, fw_offset e, fw_end e, t_path t) :: intervals_of (S k) ts l'
  | _, _ => []
  end.

(** The report on [iv] against the earlier interval [prev], when the test
    of the inner loop finds that they intersect. *)
Definition report (iv prev : interval) : option overlap :=
  let '(_, prev_start, prev_end, prev_path) := prev in
  let '(_, offset, end_offset, filepath) := iv in
  if (offset <? prev_end) && (end_offset >? prev_start)
  then Some {| ov_prev_path := prev_path; ov_path := filepath;
               ov_prev_start := prev_start; ov_prev_end := prev_end;
               ov_start := offset; ov_end := end_offset |}
  else None.

(** The reports on the intervals [new], taken in order, each against
    [earlier] and the ones of [new] before it. *)
Fixpoint reports (earlier new : list interval) : list overlap :=
  match new with
  | [] => []
  | iv :: rest =>
      omap (report iv) earlier ++ reports (earlier ++ [iv]) rest
  end.

(** The state in which the pre-flight loop ends on the merge of
    [Overlap]. *)
Definition overlap_preflight : preflight_state :=
  {| pf_current_offset := 0x208;
     pf_intervals := [ (0%nat, 0x200, 0x210, "a.bin"%string);
                       (1%nat, 0x200, 0x204, "b.bin"%string);
                       (2%nat, 0x204, 0x208, "c.bin"%string) ];
     pf_overlaps :=
       [ {| ov_prev_path := "a.bin"; ov_path := "b.bin";
            ov_prev_start := 0x200; ov_prev_end := 0x210;
            ov_start := 0x200; ov_end := 0x204 |};
         {| ov_prev_path := "a.bin"; ov_path := "c.bin";
            ov_prev_start := 0x200; ov_prev_end := 0x210;
            ov_start := 0x204; ov_end := 0x208 |} ];
     pf_skipped := [] |}.

(** Two files placed one after the other, with a gap before the second. *)
Definition apart_targets : list target :=
  [ {| t_path := "a.bin"; t_offset := None |};
    {| t_path := "b.bin"; t_offset := Some 0x200 |} ].

(** * [test_binaries.py] *)

#[local] Instance byte_eq_dec : EqDecision byte := Byte.byte_eq_dec.

(** [create_dummy_file(filename, size, fill_byte)] *)
Definition create_dummy_file (filename : string) (size : nat) (fill_byte : byte)
  : IO unit :=
  write_file filename (replicate size fill_byte).

(** [assert cond] *)
Definition py_assert (cond : bool) : IO unit :=
  pure (if cond then Ok tt else Err AssertionError).

(** [data[i]]: a negative index counts from the end; an index outside the
    string raises. *)
Definition getitem (data : bytes) (i : Z) : result Z :=
  let i := if i <? 0 then i + Z.of_nat (length data) else i in
  if 0 <=? i then
    match data !! Z.to_nat i with
    | Some b => Ok (byte_to_Z b)
    | None => Err IndexError
    end
  else Err IndexError.

(** [test_merger()]. [os.makedirs] and the [print] lines are left out:
    the file system of the model has no directories and no console. *)
Definition test_merger : IO unit :=
  let fw1_file := "test_data/fw1.bin"%string in
  let fw2_file := "test_data/fw2.bin"%string in
  let output_file := "test_data/merged.bin"%string in
  _ ← create_dummy_file fw1_file 0x1000%nat xaa;
  _ ← create_dummy_file fw2_file 0x200%nat xbb;
  let fw3_file := "test_data/fw3.bin"%string in
  _ ← create_dummy_file fw3_file 0x50%nat xcc;
  let targets :=
    [ {| t_path := fw1_file; t_offset := None |};
      {| t_path := fw2_file; t_offset := Some 0x100 |};
      {| t_path := fw3_file; t_offset := Some 0 |} ] in
  sizes ← merge_binaries targets output_file;
  data ← read_file output_file;
  _ ← py_assert (bool_decide (slice data 0 4 = AIO_MAGIC));
  count ← pure (getitem data 0x0E);
  _ ← py_assert (count =? 3);
  let header_sz := 0x20 + 3 * 0x50 in
  offset0 ← pure (struct_unpack 4 (slice data (0x20 + 0x28) (0x20 + 0x28 + 4)));
  _ ← py_assert (offset0 =? header_sz);
  offset1 ← pure (struct_unpack 4 (slice data (0x70 + 0x28) (0x70 + 0x28 + 4)));
  _ ← py_assert (offset1 =? header_sz);
  offset2 ← pure (struct_unpack 4 (slice data (0xC0 + 0x28) (0xC0 + 0x28 + 4)));
  _ ← py_assert (offset2 =? header_sz);
  b0 ← pure (getitem data header_sz);
  _ ← py_assert (b0 =? 0xCC);
  b1 ← pure (getitem data (header_sz + 0x50));
  _ ← py_assert (b1 =? 0xBB);
  b2 ← pure (getitem data (header_sz + 0x200));
  py_assert (b2 =? 0xAA).

(** The three files that [test_merger] creates, alone in a file system. *)
Definition test_files : filesystem :=
  {| contents := {[ "test_data/fw1.bin"%string := replicate 0x1000%nat xaa;
                    "test_data/fw2.bin"%string := replicate 0x200%nat xbb;
                    "test_data/fw3.bin"%string := replicate 0x50%nat xcc ]};
     unwritable := ∅ |}.

(** The targets of [test_merger]. *)
Definition test_targets : list target :=
  [ {| t_path := "test_data/fw1.bin"; t_offset := None |};
    {| t_path := "test_data/fw2.bin"; t_offset := Some 0x100 |};
    {| t_path := "test_data/fw3.bin"; t_offset := Some 0 |} ].

(** The image that merging [test_targets] produces from [test_files]. *)
Definition test_image : bytes :=
  match contents (fst (merge_binaries test_targets "test_data/merged.bin"
                         test_files)) !! "test_data/merged.bin"%string with
  | Some b => b
  | None => []
  end.

(** * Properties *)

(** ** Bytes and little-endian fields *)

Lemma byte_to_Z_range (b : byte) : 0 <= byte_to_Z b < 256.
Proof.
  unfold byte_to_Z. pose proof (Byte.to_N_bounded b) as H.
  lia.
Qed.

Lemma byte_to_of_Z (z : Z) : byte_to_Z (byte_of_Z z) = z mod 256.
Proof.
  unfold byte_to_Z, byte_of_Z.
  pose proof (Z.mod_pos_bound z 256 ltac:(lia)) as Hm.
  destruct (Byte.of_N (Z.to_N (z mod 256))) as [b|] eqn:E.
  - apply Byte.to_of_N in E. rewrite E. lia.
  - apply Byte.of_N_None_iff in E. lia.
Qed.

Lemma length_le_bytes (w : nat) (v : Z) : length (le_bytes w v) = w.
Proof. revert v. induction w as [|w IH]; intros v; simpl; [done|]. by rewrite IH. Qed.

Lemma le_value_le_bytes (w : nat) (v : Z) :
  0 <= v -> le_value (le_bytes w v) = v mod 2 ^ (8 * Z.of_nat w).
Proof.
  revert v. induction w as [|w IH]; intros v Hv.
  - simpl. rewrite Z.mod_1_r. done.
  - cbn [le_bytes le_value]. rewrite byte_to_of_Z, IH
      by (rewrite Z.shiftr_div_pow2 by lia; apply Z.div_pos; lia).
    rewrite Z.shiftr_div_pow2 by lia.
    replace (8 * Z.of_nat (S w)) with (8 + 8 * Z.of_nat w) by lia.
    rewrite Z.pow_add_r by lia.
    change (2 ^ 8) with 256.
    rewrite (Z.rem_mul_r v 256 (2 ^ (8 * Z.of_nat w))) by lia.
    done.
Qed.

Lemma le_value_le_bytes_id (w : nat) (v : Z) :
  0 <= v < 2 ^ (8 * Z.of_nat w) -> le_value (le_bytes w v) = v.
Proof.
  intros Hv. rewrite le_value_le_bytes by lia. apply Z.mod_small. done.
Qed.

(** ** Slices whose bounds lie inside the array *)

Lemma slice_index_id (len i : Z) : 0 <= i <= len -> slice_index len i = i.
Proof.
  intros H. unfold slice_index.
  destruct (i <? 0) eqn:E; [apply Z.ltb_lt in E; lia | lia].
Qed.

Lemma slice_in_range (buf : bytes) (lo hi : Z) :
  0 <= lo <= hi -> hi <= Z.of_nat (length buf) ->
  slice buf lo hi = take (Z.to_nat (hi - lo)) (drop (Z.to_nat lo) buf).
Proof.
  intros H1 H2. unfold slice.
  rewrite !slice_index_id by lia. by rewrite Z.max_r by lia.
Qed.

Lemma slice_assign_in_range (buf : bytes) (lo hi : Z) (d : bytes) :
  0 <= lo <= hi -> hi <= Z.of_nat (length buf) ->
  slice_assign buf lo hi d
  = take (Z.to_nat lo) buf ++ d ++ drop (Z.to_nat hi) buf.
Proof.
  intros H1 H2. unfold slice_assign.
  rewrite !slice_index_id by lia. by rewrite Z.max_r by lia.
Qed.

(** A field is read back from where it lies in the array. *)
Lemma slice_middle (pre mid post : bytes) (lo hi : Z) :
  lo = Z.of_nat (length pre) -> hi = lo + Z.of_nat (length mid) ->
  slice (pre ++ mid ++ post) lo hi = mid.
Proof.
  intros -> ->. rewrite slice_in_range by (rewrite ?length_app; lia).
  rewrite Nat2Z.id, drop_app_length.
  replace (Z.to_nat _) with (length mid) by lia.
  apply take_app_length.
Qed.

Lemma slice_assign_middle (pre mid post d : bytes) (lo hi : Z) :
  lo = Z.of_nat (length pre) -> hi = lo + Z.of_nat (length mid) ->
  slice_assign (pre ++ mid ++ post) lo hi d = pre ++ d ++ post.
Proof.
  intros -> ->. rewrite slice_assign_in_range by (rewrite ?length_app; lia).
  rewrite Nat2Z.id, take_app_length. do 2 f_equal.
  rewrite app_assoc. apply drop_app_length'. rewrite length_app. lia.
Qed.

Lemma length_slice_assign (buf : bytes) (lo hi : Z) (d : bytes) :
  0 <= lo <= hi -> hi <= Z.of_nat (length buf) ->
  Z.of_nat (length d) = hi - lo ->
  length (slice_assign buf lo hi d) = length buf.
Proof.
  intros H1 H2 H3. rewrite slice_assign_in_range by done.
  rewrite !length_app, length_take, length_drop. lia.
Qed.

(** Inside the assigned range the array holds the new bytes. *)
Lemma lookup_slice_assign_in (buf : bytes) (lo hi : Z) (d : bytes) (p : Z) :
  0 <= lo <= hi -> hi <= Z.of_nat (length buf) ->
  Z.of_nat (length d) = hi - lo -> lo <= p < hi ->
  slice_assign buf lo hi d !! Z.to_nat p = d !! Z.to_nat (p - lo).
Proof.
  intros H1 H2 H3 H4. rewrite slice_assign_in_range by done.
  rewrite lookup_app_r by (rewrite length_take; lia).
  rewrite lookup_app_l by (rewrite length_take; lia).
  f_equal. rewrite length_take. lia.
Qed.

(** Outside the assigned range the array is unchanged. *)
Lemma lookup_slice_assign_out (buf : bytes) (lo hi : Z) (d : bytes) (p : Z) :
  0 <= lo <= hi -> hi <= Z.of_nat (length buf) ->
  Z.of_nat (length d) = hi - lo -> 0 <= p -> ~ (lo <= p < hi) ->
  slice_assign buf lo hi d !! Z.to_nat p = buf !! Z.to_nat p.
Proof.
  intros H1 H2 H3 H4 H5. rewrite slice_assign_in_range by done.
  destruct (Z.lt_ge_cases p lo) as [Hlt|Hge].
  - rewrite lookup_app_l by (rewrite length_take; lia).
    apply lookup_take_lt. lia.
  - rewrite lookup_app_r by (rewrite length_take; lia).
    rewrite lookup_app_r by (rewrite length_take; lia).
    rewrite lookup_drop. f_equal. rewrite length_take. lia.
Qed.

(** ** Step 1: offset resolution *)

Lemma gather_loop (fs : filesystem) (ths : Z) (targets : list target) :
  forall (acc : list fw_entry) (cur : Z),
    for_each_io (gather_body ths) targets (acc, cur) fs
    = (fs, match resolve_from fs ths cur targets with
           | Ok l => Ok (acc ++ l, default cur (fw_end <$> last l))
           | Err e => Err e
           end).
Proof.
  induction targets as [|t ts IH]; intros acc cur.
  - simpl. by rewrite app_nil_r.
  - cbn [for_each_io resolve_from].
    unfold mbind at 1, IO_bind. unfold gather_body at 1.
    unfold mbind at 1, IO_bind, read_file.
    destruct (contents fs !! t_path t) as [data|]; [|done].
    unfold mret, IO_ret. rewrite IH.
    destruct (resolve_from fs ths _ ts) as [rest|e]; [|done].
    cbn. rewrite <- app_assoc. cbn. do 3 f_equal.
    destruct rest as [|r rest]; [done|]. rewrite last_cons_cons.
    destruct (proj2 (last_is_Some (r :: rest)) ltac:(done)) as [x ->]. done.
Qed.

(** The loop of step 1 reads files only: it leaves the file system as it
    found it, and its list is the one of [resolve_from]. *)
Lemma gather_resolve_from (fs : filesystem) (ths : Z) (targets : list target) :
  gather ths targets fs = (fs, resolve_from fs ths ths targets).
Proof.
  unfold gather, mbind, IO_bind. rewrite gather_loop.
  by destruct (resolve_from fs ths ths targets).
Qed.

Lemma resolved_eq (fs : filesystem) (targets : list target) :
  resolved fs targets
  = resolve_from fs (header_size_of (Z.of_nat (length targets)))
      (header_size_of (Z.of_nat (length targets))) targets.
Proof. unfold resolved. by rewrite gather_resolve_from. Qed.

Lemma resolve_from_length fs ths cur targets l :
  resolve_from fs ths cur targets = Ok l -> length l = length targets.
Proof.
  revert cur l. induction targets as [|t ts IH]; intros cur l H; simpl in H.
  - by inversion H.
  - destruct (contents fs !! t_path t) as [data|]; [|done].
    destruct (resolve_from fs ths _ ts) as [rest|] eqn:E; [|done].
    inversion H; subst. simpl. f_equal. eauto.
Qed.

(** A source that cannot be read makes step 1 raise. *)
Lemma resolve_from_unreadable fs ths cur targets t :
  t ∈ targets -> contents fs !! t_path t = None ->
  exists p, resolve_from fs ths cur targets = Err (OSError p)
            /\ contents fs !! p = None.
Proof.
  intros Hin Hnone. revert cur.
  induction targets as [|t' ts IH]; intros cur; [by inversion Hin|].
  simpl. destruct (contents fs !! t_path t') as [data|] eqn:E.
  - assert (t ∈ ts) as Hts.
    { apply elem_of_cons in Hin as [->|?]; [congruence|done]. }
    destruct (IH Hts (resolve_offset ths cur (t_offset t')
                      + Z.of_nat (length data))) as (p & -> & Hp).
    by exists p.
  - by exists (t_path t').
Qed.

(** What step 1 records for the entry at index [i]. *)
Lemma resolve_from_lookup fs ths targets :
  forall cur l i e,
    resolve_from fs ths cur targets = Ok l -> l !! i = Some e ->
    exists t, targets !! i = Some t
      /\ contents fs !! t_path t = Some (fw_data e)
      /\ fw_size e = Z.of_nat (length (fw_data e))
      /\ fw_crc e = None
      /\ fw_offset e
         = resolve_offset ths
             (match i with
              | O => cur
              | S j => default cur (fw_end <$> l !! j)
              end) (t_offset t).
Proof.
  induction targets as [|t ts IH]; intros cur l i e H Hi; simpl in H.
  - inversion H; subst. done.
  - destruct (contents fs !! t_path t) as [data|] eqn:Ed; [|done].
    destruct (resolve_from fs ths _ ts) as [rest|] eqn:E; [|done].
    inversion H; subst; clear H.
    destruct i as [|i].
    + inversion Hi; subst. exists t. simpl. done.
    + simpl in Hi. destruct (IH _ _ _ _ E Hi) as (t' & ? & ? & ? & ? & Ho).
      exists t'. repeat split; try done.
      rewrite Ho. f_equal. destruct i as [|j]; [done|].
      simpl. destruct (rest !! j) eqn:Ej; [done|].
      apply lookup_ge_None in Ej. apply lookup_lt_Some in Hi. lia.
Qed.

Lemma resolve_offset_ge (ths cur : Z) (o : option Z) :
  ths <= resolve_offset ths cur o.
Proof.
  unfold resolve_offset. destruct o as [o|]; [|lia].
  destruct (o <? ths) eqn:E; [lia|]. apply Z.ltb_ge in E. lia.
Qed.

Lemma resolved_lookup fs targets l i e :
  resolved fs targets = Ok l -> l !! i = Some e ->
  exists t, targets !! i = Some t
    /\ contents fs !! t_path t = Some (fw_data e)
    /\ fw_size e = Z.of_nat (length (fw_data e))
    /\ fw_crc e = None
    /\ fw_offset e
       = resolve_offset (header_size_of (Z.of_nat (length targets)))
           (cursor_before (header_size_of (Z.of_nat (length targets))) l i)
           (t_offset t).
Proof.
  rewrite resolved_eq. intros H Hi.
  destruct (resolve_from_lookup _ _ _ _ _ _ _ H Hi) as (t & ? & ? & ? & ? & Ho).
  exists t. repeat split; try done. rewrite Ho. f_equal.
  destruct i as [|j]; [done|]. simpl. by destruct (l !! j).
Qed.

Lemma resolved_length fs targets l :
  resolved fs targets = Ok l -> length l = length targets.
Proof. rewrite resolved_eq. apply resolve_from_length. Qed.

(** Every resolved range starts at or after the headers and has the
    length of its payload. *)
Lemma resolved_fits fs targets l i e :
  resolved fs targets = Ok l -> l !! i = Some e ->
  header_size_of (Z.of_nat (length targets)) <= fw_offset e
  /\ fw_size e = Z.of_nat (length (fw_data e)).
Proof.
  intros H Hi. destruct (resolved_lookup _ _ _ _ _ H Hi) as (t & _ & _ & ? & _ & ->).
  split; [apply resolve_offset_ge | done].
Qed.

(** C3: in a merge of N entries every resolved offset, whatever offset
    was requested (none, below or above the header size), is at least
    header_size = 0x20 + N * 0x50, so no position of an entry's payload
    range lies in the header region [0, header_size). *)
Theorem C3_resolved_offset_ge_header_size
  (fs : filesystem) (targets : list target) (l : list fw_entry)
  (i : nat) (e : fw_entry) :
  resolved fs targets = Ok l -> l !! i = Some e ->
  let header_size := 0x20 + Z.of_nat (length targets) * 0x50 in
  header_size <= fw_offset e
  /\ forall p, covers e p -> ~ (0 <= p < header_size).
Proof.
  intros H Hi hs. destruct (resolved_fits _ _ _ _ _ H Hi) as [Hge _].
  fold (header_size_of (Z.of_nat (length targets))) in hs. subst hs.
  split; [done|]. unfold covers. intros p Hp. lia.
Qed.

Lemma C3_witness :
  0x110 <= fw_offset Overlap.c
  /\ forall p, covers Overlap.c p -> ~ (0 <= p < 0x110).
Proof.
  apply (C3_resolved_offset_ge_header_size Overlap.fs Overlap.targets
           [Overlap.a; Overlap.b; Overlap.c] 2 Overlap.c);
    [vm_compute; reflexivity | reflexivity].
Defined.

(** C4: an explicit offset at or above the header size is kept as it is,
    whatever the other entries occupy; an explicit offset below the header
    size is replaced by the header size. *)
Theorem C4_explicit_offset
  (fs : filesystem) (targets : list target) (l : list fw_entry)
  (i : nat) (t : target) (e : fw_entry) (o : Z) :
  resolved fs targets = Ok l ->
  targets !! i = Some t -> l !! i = Some e -> t_offset t = Some o ->
  let header_size := 0x20 + Z.of_nat (length targets) * 0x50 in
  (header_size <= o -> fw_offset e = o)
  /\ (o < header_size -> fw_offset e = header_size).
Proof.
  intros H Ht Hi Ho hs.
  destruct (resolved_lookup _ _ _ _ _ H Hi) as (t' & Ht' & _ & _ & _ & Hofs).
  assert (t' = t) as -> by congruence.
  rewrite Ho in Hofs. unfold resolve_offset, header_size_of in Hofs.
  fold hs in Hofs. rewrite Hofs.
  destruct (o <? hs) eqn:E; [apply Z.ltb_lt in E | apply Z.ltb_ge in E];
    split; intros; lia || done.
Qed.

Lemma C4_witness :
  (0x110 <= 0x200 -> fw_offset Overlap.b = 0x200)
  /\ (0x200 < 0x110 -> fw_offset Overlap.b = 0x110).
Proof.
  apply (C4_explicit_offset Overlap.fs Overlap.targets
           [Overlap.a; Overlap.b; Overlap.c] 1
           {| t_path := "b.bin"; t_offset := Some 0x200 |} Overlap.b 0x200);
    [vm_compute; reflexivity | reflexivity | reflexivity | reflexivity].
Defined.

(** The clamping branch of the offset rule on the scenario of
    [test_binaries.py]: 0x100 and 0 both become 0x110. *)
Example scenario_offsets :
  exists l, resolved Scenario.fs Scenario.targets = Ok l
            /\ fw_offset <$> l = [0x110; 0x110; 0x110].
Proof. eexists. split; [vm_compute; reflexivity | reflexivity]. Qed.

(** C1 (as amended): an entry without an offset is resolved to
    max(cursor, header_size), the cursor being the header size for the
    first entry and the end of the entry immediately before it otherwise;
    so an auto-append entry starts exactly where the entry before it
    ends. *)
Theorem C1_auto_append_after_previous
  (fs : filesystem) (targets : list target) (l : list fw_entry)
  (i : nat) (t : target) (e : fw_entry) :
  resolved fs targets = Ok l ->
  targets !! i = Some t -> t_offset t = None -> l !! i = Some e ->
  let header_size := header_size_of (Z.of_nat (length targets)) in
  fw_offset e = Z.max (cursor_before header_size l i) header_size
  /\ (i = 0%nat -> fw_offset e = header_size)
  /\ (forall prev, l !! pred i = Some prev -> (0 < i)%nat ->
        fw_offset e = fw_offset prev + fw_size prev).
Proof.
  intros H Ht Hnone Hi hs.
  destruct (resolved_lookup _ _ _ _ _ H Hi) as (t' & Ht' & _ & _ & _ & Hofs).
  assert (t' = t) as -> by congruence.
  rewrite Hnone in Hofs. simpl in Hofs. fold hs in Hofs.
  split; [done|]. split.
  - intros ->. rewrite Hofs. simpl. lia.
  - intros prev Hprev Hpos. destruct i as [|j]; [lia|]. simpl in Hprev.
    rewrite Hofs. simpl. rewrite Hprev.
    destruct (resolved_fits _ _ _ _ _ H Hprev) as [Hge Hsz].
    unfold fw_end. fold hs in Hge. lia.
Qed.

Lemma C1_witness :
  fw_offset Overlap.c
  = Z.max (cursor_before 0x110 [Overlap.a; Overlap.b; Overlap.c] 2) 0x110
  /\ (2%nat = 0%nat -> fw_offset Overlap.c = 0x110)
  /\ (forall prev,
        [Overlap.a; Overlap.b; Overlap.c] !! 1%nat = Some prev -> (0 < 2)%nat ->
        fw_offset Overlap.c = fw_offset prev + fw_size prev).
Proof.
  apply (C1_auto_append_after_previous Overlap.fs Overlap.targets
           [Overlap.a; Overlap.b; Overlap.c] 2
           {| t_path := "c.bin"; t_offset := None |} Overlap.c);
    [vm_compute; reflexivity | reflexivity | reflexivity | reflexivity].
Defined.

(** In that merge the auto-append entry c starts inside the range of a. *)
Example overlap_auto_append_inside_earlier_range :
  resolved Overlap.fs Overlap.targets = Ok [Overlap.a; Overlap.b; Overlap.c]
  /\ covers Overlap.a (fw_offset Overlap.c)
  /\ fw_offset Overlap.c < fw_end Overlap.a.
Proof.
  split; [vm_compute; reflexivity|]. unfold covers, fw_end. simpl. lia.
Qed.

(** C1 as stated fails: with a (16 bytes) and b (4 bytes) both placed at
    0x200 and c without an offset, c is resolved to 0x204, the end of b,
    which is below the highest end seen so far (0x210, the end of a) and
    inside the range of a. *)
Lemma C1_counterexample :
  ~ auto_append_after_highest Overlap.fs Overlap.targets.
Proof.
  intros Hclaim.
  destruct (Hclaim [Overlap.a; Overlap.b; Overlap.c] 2%nat
              {| t_path := "c.bin"; t_offset := None |} Overlap.c)
    as [Hofs _]; [vm_compute; reflexivity | reflexivity..|].
  vm_compute in Hofs. discriminate Hofs.
Qed.

(** ** Step 2: the size of the image and the composition *)

Lemma find_max_end_highest (ths : Z) (l : list fw_entry) :
  find_max_end ths l = highest_end ths l.
Proof.
  unfold find_max_end. revert ths.
  induction l as [|e l IH]; intros ths; [done|].
  cbn [fold_left highest_end foldr]. fold (fw_end e).
  rewrite IH. fold (highest_end ths l).
  assert (forall a b, a <= b -> highest_end a l <= highest_end b l) as Hmono.
  { clear. induction l as [|x l IH]; intros a b Hab; simpl; [done|].
    specialize (IH a b Hab). lia. }
  assert (forall a, a <= highest_end a l) as Hge.
  { clear. induction l as [|x l IH]; intros a; simpl; [lia|].
    specialize (IH a). lia. }
  assert (forall a b, highest_end (Z.max a b) l = Z.max a (highest_end b l))
    as Hmax.
  { clear. induction l as [|x l IH]; intros a b; simpl; [done|].
    rewrite IH. lia. }
  destruct (fw_end e >? ths) eqn:E.
  - replace (fw_end e) with (Z.max (fw_end e) ths) at 1 by lia. apply Hmax.
  - replace ths with (Z.max (fw_end e) ths) at 1 by lia. apply Hmax.
Qed.

(** [find_max_end] is the maximum of the header size and the ends. *)
Lemma find_max_end_spec (ths : Z) (l : list fw_entry) :
  ths <= find_max_end ths l
  /\ (forall i e, l !! i = Some e -> fw_end e <= find_max_end ths l)
  /\ (find_max_end ths l = ths
      \/ exists i e, l !! i = Some e /\ find_max_end ths l = fw_end e).
Proof.
  rewrite find_max_end_highest. induction l as [|x l (IH1 & IH2 & IH3)]; simpl.
  - split; [lia|]. split; [by intros [|?] ?|by left].
  - split; [lia|]. split.
    + intros [|i] e He; simpl in He.
      * inversion He; subst. lia.
      * specialize (IH2 _ _ He). lia.
    + destruct (Z.max_spec (fw_end x) (highest_end ths l)) as [[_ ->]|[_ ->]].
      * destruct IH3 as [?|(i & e & ? & ?)]; [by left|].
        right. by exists (S i), e.
      * right. by exists 0%nat, x.
Qed.

Lemma copy_payloads_length (l : list fw_entry) :
  forall buf, Forall (fits (length buf)) l ->
              length (copy_payloads l buf) = length buf.
Proof.
  induction l as [|x l IH]; intros buf Hfit; [done|].
  inversion Hfit as [|? ? (H0 & Hsz & Hend) Hrest]; subst.
  unfold fw_end in Hend.
  assert (length (slice_assign buf (fw_offset x) (fw_offset x + fw_size x)
                    (fw_data x)) = length buf) as Hlen
    by (apply length_slice_assign; lia).
  cbn [copy_payloads fold_left]. fold (copy_payloads l).
  rewrite IH; rewrite Hlen; done.
Qed.

(** A position that no entry covers keeps its byte. *)
Lemma copy_payloads_untouched (l : list fw_entry) (p : Z) :
  forall buf, Forall (fits (length buf)) l -> 0 <= p ->
              (forall i e, l !! i = Some e -> ~ covers e p) ->
              copy_payloads l buf !! Z.to_nat p = buf !! Z.to_nat p.
Proof.
  induction l as [|x l IH]; intros buf Hfit Hp Hno; [done|].
  inversion Hfit as [|? ? (H0 & Hsz & Hend) Hrest]; subst.
  unfold fw_end in Hend.
  assert (length (slice_assign buf (fw_offset x) (fw_offset x + fw_size x)
                    (fw_data x)) = length buf) as Hlen
    by (apply length_slice_assign; lia).
  cbn [copy_payloads fold_left]. fold (copy_payloads l).
  rewrite IH.
  - apply lookup_slice_assign_out; try lia.
    apply (Hno 0%nat x eq_refl).
  - by rewrite Hlen.
  - done.
  - intros i e He. apply (Hno (S i) e He).
Qed.

(** Of the entries that cover a position, the last one in list order
    supplies the byte. *)
Lemma copy_payloads_last_wins (l : list fw_entry) (p : Z) :
  forall buf i e,
    Forall (fits (length buf)) l ->
    l !! i = Some e -> covers e p ->
    (forall j e', (i < j)%nat -> l !! j = Some e' -> ~ covers e' p) ->
    copy_payloads l buf !! Z.to_nat p
    = fw_data e !! Z.to_nat (p - fw_offset e).
Proof.
  induction l as [|x l IH]; intros buf i e Hfit Hi Hcov Hlast; [done|].
  inversion Hfit as [|? ? (H0 & Hsz & Hend) Hrest]; subst.
  unfold fw_end in Hend.
  assert (length (slice_assign buf (fw_offset x) (fw_offset x + fw_size x)
                    (fw_data x)) = length buf) as Hlen
    by (apply length_slice_assign; lia).
  cbn [copy_payloads fold_left]. fold (copy_payloads l).
  destruct i as [|i]; simpl in Hi.
  - inversion Hi; subst. unfold covers, fw_end in Hcov.
    rewrite copy_payloads_untouched.
    + apply lookup_slice_assign_in; lia.
    + by rewrite Hlen.
    + lia.
    + intros j e' He'. apply (Hlast (S j) e'); [lia | done].
  - apply IH with (i := i); try done.
    + by rewrite Hlen.
    + intros j e' Hj He'. apply (Hlast (S j) e'); [lia | done].
Qed.

(** ** [struct] and the two header generators *)

Lemma struct_pack_ok (width : nat) (v : Z) :
  fits_width width v -> struct_pack width v = Ok (le_bytes width v).
Proof.
  intros [H1 H2]. unfold struct_pack.
  by rewrite (proj2 (Z.leb_le _ _) H1), (proj2 (Z.ltb_lt _ _) H2).
Qed.

Lemma struct_pack_err (width : nat) (v : Z) :
  ~ fits_width width v -> struct_pack width v = Err StructError.
Proof.
  intros H. unfold struct_pack, fits_width in *.
  destruct (0 <=? v) eqn:E1; [|done].
  destruct (v <? 2 ^ (8 * Z.of_nat width)) eqn:E2; [|done].
  apply Z.leb_le in E1. apply Z.ltb_lt in E2. lia.
Qed.

Lemma struct_pack_into_ok (width : nat) (buffer : bytes) (offset v : Z) :
  fits_width width v ->
  0 <= offset -> offset + Z.of_nat width <= Z.of_nat (length buffer) ->
  struct_pack_into width buffer offset v
  = Ok (slice_assign buffer offset (offset + Z.of_nat width)
          (le_bytes width v)).
Proof.
  intros Hv H1 H2. unfold struct_pack_into. rewrite struct_pack_ok by done.
  cbn [mbind result_bind]. rewrite (proj2 (Z.ltb_ge _ _) H1).
  by rewrite (proj2 (Z.leb_le _ _) H1), (proj2 (Z.leb_le _ _) H2).
Qed.

Lemma struct_pack_into_err (width : nat) (buffer : bytes) (offset v : Z) :
  ~ fits_width width v ->
  struct_pack_into width buffer offset v = Err StructError.
Proof.
  intros Hv. unfold struct_pack_into. by rewrite struct_pack_err.
Qed.

Lemma generate_aio_header_ok (fw_count : Z) :
  0 <= fw_count <= 255 ->
  generate_aio_header fw_count = Ok (aio_layout fw_count).
Proof.
  intros H. unfold generate_aio_header.
  rewrite !struct_pack_ok by (unfold fits_width; simpl; lia).
  cbn [mbind result_bind].
  rewrite !length_app, !length_le_bytes. done.
Qed.

Lemma generate_aio_header_too_many (fw_count : Z) :
  255 < fw_count -> generate_aio_header fw_count = Err StructError.
Proof.
  intros H. unfold generate_aio_header.
  destruct (struct_pack 2 _) as [hs|e] eqn:E.
  - cbn [mbind result_bind].
    rewrite struct_pack_err by (unfold fits_width; simpl; lia). done.
  - unfold struct_pack in E.
    by destruct (_ && _) in E; inversion E.
Qed.

Lemma generate_aio_header_inv (fw_count : Z) (h : bytes) :
  0 <= fw_count ->
  generate_aio_header fw_count = Ok h ->
  fw_count <= 255 /\ h = aio_layout fw_count.
Proof.
  intros H0 H. destruct (Z.le_gt_cases fw_count 255) as [Hle|Hgt].
  - rewrite generate_aio_header_ok in H by lia. by inversion H.
  - rewrite generate_aio_header_too_many in H by lia. done.
Qed.

Lemma generate_elan_header_ok (o s c : Z) :
  fits_width 4 o -> fits_width 4 s -> fits_width 4 c ->
  generate_elan_header o s c = Ok (elan_layout o s c).
Proof.
  intros Ho Hs Hc. unfold generate_elan_header.
  rewrite struct_pack_into_ok by (vm_compute; done).
  cbn [mbind result_bind].
  rewrite (struct_pack_into_ok 4 _ _ o) by (done || vm_compute; done).
  cbn [mbind result_bind].
  rewrite (struct_pack_into_ok 4 _ _ s) by (done || vm_compute; done).
  cbn [mbind result_bind].
  rewrite (struct_pack_into_ok 4 _ _ c) by (done || vm_compute; done).
  cbn [mbind result_bind].
  cbv -[byte_of_Z Z.shiftr]. reflexivity.
Qed.

Lemma generate_elan_header_inv (o s c : Z) (h : bytes) :
  generate_elan_header o s c = Ok h ->
  fits_width 4 o /\ fits_width 4 s /\ fits_width 4 c
  /\ h = elan_layout o s c.
Proof.
  intros H.
  destruct (decide (fits_width 4 o)) as [Ho|Ho];
    [destruct (decide (fits_width 4 s)) as [Hs|Hs];
     [destruct (decide (fits_width 4 c)) as [Hc|Hc]|]|].
  - rewrite generate_elan_header_ok in H by done. by inversion H.
  - exfalso. unfold generate_elan_header in H.
    rewrite struct_pack_into_ok in H by (vm_compute; done).
    cbn [mbind result_bind] in H.
    rewrite (struct_pack_into_ok 4 _ _ o) in H by (done || vm_compute; done).
    cbn [mbind result_bind] in H.
    rewrite (struct_pack_into_ok 4 _ _ s) in H by (done || vm_compute; done).
    cbn [mbind result_bind] in H.
    by rewrite (struct_pack_into_err 4 _ _ c) in H.
  - exfalso. unfold generate_elan_header in H.
    rewrite struct_pack_into_ok in H by (vm_compute; done).
    cbn [mbind result_bind] in H.
    rewrite (struct_pack_into_ok 4 _ _ o) in H by (done || vm_compute; done).
    cbn [mbind result_bind] in H.
    by rewrite (struct_pack_into_err 4 _ _ s) in H.
  - exfalso. unfold generate_elan_header in H.
    rewrite struct_pack_into_ok in H by (vm_compute; done).
    cbn [mbind result_bind] in H.
    by rewrite (struct_pack_into_err 4 _ _ o) in H.
Qed.

Lemma length_elan_layout (o s c : Z) : length (elan_layout o s c) = 80%nat.
Proof. reflexivity. Qed.

Lemma length_aio_layout (n : Z) : length (aio_layout n) = 32%nat.
Proof. reflexivity. Qed.

Lemma generate_elan_headers_loop (l : list fw_entry) :
  forall acc r,
    for_each (fun elan_headers t =>
                crc ← match fw_crc t with
                      | Some c => Ok c
                      | None => Err (KeyError "crc")
                      end;
                h ← generate_elan_header (fw_offset t) (fw_size t) crc;
                Ok (elan_headers ++ h)) l acc = Ok r ->
    r = acc ++ concat (entry_header <$> l)
    /\ Forall (fun e => fits_width 4 (fw_offset e) /\ fits_width 4 (fw_size e)
                        /\ exists c, fw_crc e = Some c /\ fits_width 4 c) l.
Proof.
  induction l as [|e l IH]; intros acc r H.
  - inversion H; subst. simpl. by rewrite app_nil_r.
  - cbn [for_each] in H.
    destruct (fw_crc e) as [c|] eqn:Ec; [|done].
    cbn [mbind result_bind] in H.
    destruct (generate_elan_header (fw_offset e) (fw_size e) c) as [h|] eqn:Eh;
      [|done].
    cbn [mbind result_bind] in H.
    apply generate_elan_header_inv in Eh as (? & ? & ? & ->).
    destruct (IH _ _ H) as [-> Hall]. split.
    + rewrite fmap_cons. cbn [concat]. unfold entry_header at 2.
      rewrite Ec. cbn [default]. by rewrite <- app_assoc.
    + constructor; [|done]. eauto.
Qed.

Lemma length_entry_headers (l : list fw_entry) :
  length (concat (entry_header <$> l)) = (80 * length l)%nat.
Proof.
  induction l as [|e l IH]; [done|].
  rewrite fmap_cons. cbn [concat]. rewrite length_app, IH.
  unfold entry_header. rewrite length_elan_layout. simpl. lia.
Qed.

Lemma set_crcs_lookup (final_bin : bytes) (l : list fw_entry) i e :
  l !! i = Some e ->
  set_crcs final_bin l !! i
  = Some {| fw_data := fw_data e; fw_offset := fw_offset e;
            fw_size := fw_size e;
            fw_crc := Some (calculate_crc32
                              (slice final_bin (fw_offset e)
                                 (fw_offset e + fw_size e))) |}.
Proof.
  intros H. unfold set_crcs.
  change (map ?f l) with (f <$> l). by rewrite list_lookup_fmap, H.
Qed.

Lemma length_set_crcs (final_bin : bytes) (l : list fw_entry) :
  length (set_crcs final_bin l) = length l.
Proof. unfold set_crcs. apply length_map. Qed.

Lemma header_size_of_pos (n : nat) : 0x20 <= header_size_of (Z.of_nat n).
Proof. unfold header_size_of. lia. Qed.

(** After step 1 every range fits the buffer that step 2 allocates. *)
Lemma resolved_all_fit fs targets l :
  resolved fs targets = Ok l ->
  let ths := header_size_of (Z.of_nat (length targets)) in
  Forall (fits (Z.to_nat (find_max_end ths l))) l.
Proof.
  intros H ths. apply Forall_lookup. intros i e Hi.
  destruct (resolved_fits _ _ _ _ _ H Hi) as [Hge Hsz].
  destruct (find_max_end_spec ths l) as (Hm & Hends & _).
  specialize (Hends _ _ Hi).
  pose proof (header_size_of_pos (length targets)).
  unfold fits. fold ths in Hge. lia.
Qed.

Lemma length_composited fs targets l :
  resolved fs targets = Ok l ->
  let ths := header_size_of (Z.of_nat (length targets)) in
  Z.of_nat (length (composited ths l)) = find_max_end ths l.
Proof.
  intros H ths. unfold composited.
  pose proof (resolved_all_fit _ _ _ H) as Hfit. fold ths in Hfit.
  rewrite copy_payloads_length; rewrite length_replicate; [|done].
  destruct (find_max_end_spec ths l) as (Hm & _).
  pose proof (header_size_of_pos (length targets)). fold ths in H0. lia.
Qed.

(** ** The whole merge *)

(** What a merge that returns has done: the sources were all read, the
    headers could be packed, the destination could be opened, and the
    destination holds the headers followed by the composited bytes from
    the header size on. *)
Lemma merge_binaries_inv targets out fs fs' hsz total :
  merge_binaries targets out fs = (fs', Ok (hsz, total)) ->
  exists l,
    resolved fs targets = Ok l
    /\ hsz = header_size_of (Z.of_nat (length targets))
    /\ total = find_max_end hsz l
    /\ Z.of_nat (length targets) <= 255
    /\ Forall (fun e => fits_width 4 (fw_offset e) /\ fits_width 4 (fw_size e)
                        /\ exists c, fw_crc e = Some c /\ fits_width 4 c)
         (set_crcs (composited hsz l) l)
    /\ (out ∉ unwritable fs)
    /\ fs' = {| contents :=
                  <[out := aio_layout (Z.of_nat (length targets))
                           ++ concat (entry_header
                                        <$> set_crcs (composited hsz l) l)
                           ++ drop (Z.to_nat hsz) (composited hsz l)]>
                    (contents fs);
                unwritable := unwritable fs |}.
Proof.
  intros H. unfold merge_binaries in H.
  unfold mbind at 1, IO_bind in H. rewrite gather_resolve_from in H.
  fold (header_size_of (Z.of_nat (length targets))) in H.
  set (ths := header_size_of (Z.of_nat (length targets))) in *.
  destruct (resolve_from fs ths ths targets) as [l|] eqn:Hres; [|done].
  assert (resolved fs targets = Ok l) as Hl by (by rewrite resolved_eq).
  fold (composited ths l) in H.
  unfold mbind at 1, IO_bind, pure in H.
  destruct (generate_aio_header _) as [aio|] eqn:Haio; [|done].
  apply generate_aio_header_inv in Haio as [Hcount ->]; [|lia].
  unfold mbind at 1, IO_bind in H.
  destruct (generate_elan_headers _) as [elan|] eqn:Helan; [|done].
  apply generate_elan_headers_loop in Helan as [-> Hall].
  unfold mbind at 1, IO_bind, write_file in H.
  destruct (decide (out ∈ unwritable fs)) as [|Hw]; [done|].
  unfold mret, IO_ret in H.
  pose proof (length_composited _ _ _ Hl) as Hlen. cbv zeta in Hlen.
  fold ths in Hlen.
  destruct (find_max_end_spec ths l) as (Hm & _).
  pose proof (header_size_of_pos (length targets)) as Hpos. fold ths in Hpos.
  rewrite slice_assign_in_range in H by lia.
  change (take (Z.to_nat 0) ?b) with (@nil byte) in H.
  rewrite app_nil_l, <- app_assoc in H.
  injection H as <- <- <-.
  exists l. repeat split; done.
Qed.

(** The file system and the destination's contents after a merge that
    returns. *)
Lemma merge_binaries_image targets out fs fs' hsz total :
  merge_binaries targets out fs = (fs', Ok (hsz, total)) ->
  exists l,
    resolved fs targets = Ok l
    /\ contents fs' !! out
       = Some (aio_layout (Z.of_nat (length targets))
               ++ concat (entry_header <$> set_crcs (composited hsz l) l)
               ++ drop (Z.to_nat hsz) (composited hsz l)).
Proof.
  intros H. apply merge_binaries_inv in H as (l & Hl & _ & _ & _ & _ & _ & ->).
  exists l. split; [done|]. cbn [contents]. apply lookup_insert_eq.
Qed.

(** The two headers together are [header_size] bytes long. *)
Lemma length_headers (n : Z) (l : list fw_entry) (k : nat) (final_bin : bytes) :
  length l = k ->
  Z.of_nat (length (aio_layout n
                    ++ concat (entry_header <$> set_crcs final_bin l)))
  = header_size_of (Z.of_nat k).
Proof.
  intros H. rewrite length_app, length_aio_layout, length_entry_headers,
    length_set_crcs, H. unfold header_size_of. lia.
Qed.

(** C7: a merge of N entries that returns, returns (headerSize, totalSize)
    with headerSize = 0x20 + N * 0x50 and totalSize the maximum of
    headerSize and of the ends offset + size of the resolved entries, and
    the bytes written to the destination are totalSize many. *)
Theorem C7_returned_sizes
  (targets : list target) (out : string) (fs fs' : filesystem)
  (headerSize totalSize : Z) :
  merge_binaries targets out fs = (fs', Ok (headerSize, totalSize)) ->
  headerSize = 0x20 + Z.of_nat (length targets) * 0x50
  /\ exists l image,
       resolved fs targets = Ok l
       /\ totalSize = highest_end headerSize l
       /\ headerSize <= totalSize
       /\ (forall i e, l !! i = Some e ->
                       fw_offset e + fw_size e <= totalSize)
       /\ (totalSize = headerSize
           \/ exists i e, l !! i = Some e
                          /\ totalSize = fw_offset e + fw_size e)
       /\ contents fs' !! out = Some image
       /\ Z.of_nat (length image) = totalSize.
Proof.
  intros H. destruct (merge_binaries_image _ _ _ _ _ _ H) as (l & Hl & Himg).
  apply merge_binaries_inv in H as (l0 & Hl0 & Hhs & Htot & _).
  assert (l0 = l) as -> by congruence.
  split; [done|]. eexists l, _. split; [done|].
  destruct (find_max_end_spec headerSize l) as (Hm & Hends & Hmax).
  rewrite <- Htot in Hm, Hends, Hmax.
  split; [by rewrite Htot, find_max_end_highest|].
  do 3 (split; [done|]). split; [exact Himg|].
  pose proof (length_composited _ _ _ Hl) as Hlen. cbv zeta in Hlen.
  rewrite <- Hhs, <- Htot in Hlen.
  rewrite app_assoc, length_app, length_drop.
  pose proof (length_headers (Z.of_nat (length targets)) l (length targets)
                (composited headerSize l) (resolved_length _ _ _ Hl)) as Hh.
  rewrite <- Hhs in Hh. lia.
Qed.

Lemma C7_witness :
  0x110 = 0x20 + Z.of_nat (length Overlap.targets) * 0x50
  /\ exists l image,
       resolved Overlap.fs Overlap.targets = Ok l
       /\ 0x210 = highest_end 0x110 l
       /\ 0x110 <= 0x210
       /\ (forall i e, l !! i = Some e -> fw_offset e + fw_size e <= 0x210)
       /\ (0x210 = 0x110
           \/ exists i e, l !! i = Some e /\ 0x210 = fw_offset e + fw_size e)
       /\ contents (fst (merge_binaries Overlap.targets "out.bin" Overlap.fs))
            !! "out.bin"%string = Some image
       /\ Z.of_nat (length image) = 0x210.
Proof.
  apply (C7_returned_sizes Overlap.targets "out.bin" Overlap.fs).
  vm_compute. reflexivity.
Defined.

(** C9: when a source file of some entry cannot be opened, the merge
    raises the error of that [open] and the file system, the destination
    included, is left as it was: the failure comes before the destination
    is opened. *)
Theorem C9_unreadable_source_aborts
  (targets : list target) (out : string) (fs : filesystem)
  (i : nat) (t : target) :
  targets !! i = Some t -> contents fs !! t_path t = None ->
  exists p, merge_binaries targets out fs = (fs, Err (OSError p))
            /\ contents fs !! p = None.
Proof.
  intros Hin Hnone. apply list_elem_of_lookup_2 in Hin.
  unfold merge_binaries.
  unfold mbind at 1, IO_bind. rewrite gather_resolve_from.
  destruct (resolve_from_unreadable fs
              (0x20 + Z.of_nat (length targets) * 0x50)
              (0x20 + Z.of_nat (length targets) * 0x50)
              targets t Hin Hnone) as (p & -> & Hp).
  by exists p.
Qed.

Lemma C9_witness :
  exists p,
    merge_binaries
      [ {| t_path := "a.bin"; t_offset := None |};
        {| t_path := "missing.bin"; t_offset := None |} ] "out.bin" Overlap.fs
    = (Overlap.fs, Err (OSError p))
    /\ contents Overlap.fs !! p = None.
Proof.
  apply (C9_unreadable_source_aborts _ _ _ 1
           {| t_path := "missing.bin"; t_offset := None |});
    [reflexivity | vm_compute; reflexivity].
Defined.

(** C10: with more than 255 entries the merge raises (the entry count
    does not fit the one-byte field, or a source cannot be read first)
    and the file system is left as it was. *)
Theorem C10_more_than_255_entries
  (targets : list target) (out : string) (fs : filesystem) :
  (255 < length targets)%nat ->
  exists e, merge_binaries targets out fs = (fs, Err e)
            /\ (e = StructError \/ exists p, e = OSError p).
Proof.
  intros Hlen. unfold merge_binaries.
  unfold mbind at 1, IO_bind. rewrite gather_resolve_from.
  destruct (resolve_from fs _ _ targets) as [l|e] eqn:Hres.
  - unfold mbind at 1, IO_bind, pure.
    rewrite generate_aio_header_too_many by lia.
    exists StructError. split; [done | by left].
  - exists e. split; [done|]. right.
    clear Hlen. revert Hres.
    generalize (0x20 + Z.of_nat (length targets) * 0x50) at 1 2.
    intros ths. generalize ths at 2. intros cur. revert cur.
    induction targets as [|t ts IH]; intros cur Hres; [done|].
    simpl in Hres. destruct (contents fs !! t_path t); [|inversion Hres; eauto].
    destruct (resolve_from fs ths _ ts) eqn:E; [done|].
    inversion Hres; subst. eauto.
Qed.

Lemma C10_witness :
  exists e,
    merge_binaries (replicate 256%nat {| t_path := "a.bin"; t_offset := None |})
      "out.bin" Overlap.fs
    = (Overlap.fs, Err e)
    /\ (e = StructError \/ exists p, e = OSError p).
Proof.
  apply (C10_more_than_255_entries
           (replicate 256%nat {| t_path := "a.bin"; t_offset := None |})).
  rewrite length_replicate. lia.
Defined.

(** ** Reading the image at and above the header size *)

Lemma lookup_over_headers (hdr buf : bytes) (p : nat) :
  (length hdr <= p)%nat ->
  (hdr ++ drop (length hdr) buf) !! p = buf !! p.
Proof.
  intros H. rewrite lookup_app_r by done. rewrite lookup_drop.
  f_equal. lia.
Qed.

Lemma slice_over_headers (hdr buf : bytes) (lo hi : Z) :
  (length hdr <= length buf)%nat ->
  Z.of_nat (length hdr) <= lo <= hi -> hi <= Z.of_nat (length buf) ->
  slice (hdr ++ drop (length hdr) buf) lo hi = slice buf lo hi.
Proof.
  intros H1 H2 H3.
  rewrite !slice_in_range by (rewrite ?length_app, ?length_drop; lia).
  f_equal. rewrite drop_app_ge by lia. rewrite drop_drop. f_equal. lia.
Qed.

(** C5: at a position covered by one or more resolved ranges (all of
    them lie at or above the header size), the output holds the payload
    byte of the covering entry with the highest input index: the payloads
    are written in input order and a later write replaces the bytes of an
    earlier one. *)
Theorem C5_last_covering_entry_wins
  (targets : list target) (out : string) (fs fs' : filesystem)
  (headerSize totalSize : Z) (l : list fw_entry) (i : nat) (e : fw_entry)
  (p : Z) :
  merge_binaries targets out fs = (fs', Ok (headerSize, totalSize)) ->
  resolved fs targets = Ok l ->
  l !! i = Some e -> covers e p ->
  (forall j e', (i < j)%nat -> l !! j = Some e' -> ~ covers e' p) ->
  exists image t payload b,
    contents fs' !! out = Some image
    /\ targets !! i = Some t
    /\ contents fs !! t_path t = Some payload
    /\ headerSize <= p
    /\ payload !! Z.to_nat (p - fw_offset e) = Some b
    /\ image !! Z.to_nat p = Some b.
Proof.
  intros H Hl Hi Hcov Hlast.
  destruct (merge_binaries_image _ _ _ _ _ _ H) as (l0 & Hl0 & Himg).
  assert (l0 = l) as -> by congruence.
  apply merge_binaries_inv in H as (l0 & Hl0' & Hhs & Htot & _).
  assert (l0 = l) as -> by congruence.
  destruct (resolved_lookup _ _ _ _ _ Hl Hi) as (t & Ht & Hdata & Hsz & _).
  destruct (resolved_fits _ _ _ _ _ Hl Hi) as [Hge _]. rewrite <- Hhs in Hge.
  pose proof (resolved_all_fit _ _ _ Hl) as Hfit. cbv zeta in Hfit.
  rewrite <- Hhs in Hfit.
  unfold covers, fw_end in Hcov.
  destruct (lookup_lt_is_Some_2 (fw_data e) (Z.to_nat (p - fw_offset e)))
    as [b Hb]; [lia|].
  eexists _, t, (fw_data e), b. split; [exact Himg|].
  do 2 (split; [done|]). split; [lia|]. split; [done|].
  pose proof (length_headers (Z.of_nat (length targets)) l (length targets)
                (composited headerSize l) (resolved_length _ _ _ Hl)) as Hh.
  rewrite <- Hhs in Hh.
  rewrite app_assoc. replace (Z.to_nat headerSize) with
    (length (aio_layout (Z.of_nat (length targets))
             ++ concat (entry_header <$> set_crcs (composited headerSize l) l)))
    by lia.
  rewrite lookup_over_headers by lia.
  unfold composited. rewrite <- Hb.
  apply copy_payloads_last_wins with (i := i); try done.
  by rewrite length_replicate.
Qed.

Lemma C5_witness :
  exists image t payload b,
    contents (fst (merge_binaries Overlap.targets "out.bin" Overlap.fs))
      !! "out.bin"%string = Some image
    /\ Overlap.targets !! 1%nat = Some t
    /\ contents Overlap.fs !! t_path t = Some payload
    /\ 0x110 <= 0x201
    /\ payload !! Z.to_nat (0x201 - fw_offset Overlap.b) = Some b
    /\ image !! Z.to_nat 0x201 = Some b.
Proof.
  apply (C5_last_covering_entry_wins Overlap.targets "out.bin" Overlap.fs
           _ 0x110 0x210 [Overlap.a; Overlap.b; Overlap.c] 1 Overlap.b 0x201).
  - vm_compute. reflexivity.
  - vm_compute. reflexivity.
  - reflexivity.
  - unfold covers, fw_end. simpl. lia.
  - intros j e' Hj He'. destruct j as [|[|[|j]]]; try lia; [|done].
    inversion He'; subst. unfold covers, fw_end. simpl. lia.
Defined.

(** The positions checked by [test_binaries.py]. *)
Example scenario_overlap :
  take 4 Scenario.image = AIO_MAGIC
  /\ Scenario.image !! 0x0E%nat = Some x03
  /\ Scenario.image !! 0x110%nat = Some xcc
  /\ Scenario.image !! 0x160%nat = Some xbb
  /\ Scenario.image !! 0x310%nat = Some xaa.
Proof. vm_compute. repeat split. Qed.

(** ** Reading the headers back *)

(** A field of the container header, which starts the image. *)
Lemma field_in_aio_header (n : Z) (rest pre mid post : bytes) :
  aio_layout n = pre ++ mid ++ post ->
  field (aio_layout n ++ rest) (Z.of_nat (length pre)) (Z.of_nat (length mid))
  = le_value mid.
Proof.
  intros ->. unfold field. rewrite <- !app_assoc. by rewrite slice_middle.
Qed.

(** A field of the entry header of index [i]. *)
Lemma field_in_entry_header (aio : bytes) (hdrs : list fw_entry) (rest : bytes)
  (i : nat) (e : fw_entry) (pre mid post : bytes) :
  length aio = 32%nat -> hdrs !! i = Some e ->
  entry_header e = pre ++ mid ++ post ->
  field (aio ++ concat (entry_header <$> hdrs) ++ rest)
    (entry_header_pos i + Z.of_nat (length pre)) (Z.of_nat (length mid))
  = le_value mid.
Proof.
  intros Haio Hi Hsplit. unfold field.
  rewrite <- (take_drop_middle hdrs i e Hi).
  rewrite fmap_app, fmap_cons, concat_app. cbn [concat]. rewrite Hsplit.
  replace (aio ++ (concat (entry_header <$> take i hdrs)
                   ++ (pre ++ mid ++ post)
                   ++ concat (entry_header <$> drop (S i) hdrs)) ++ rest)
    with ((aio ++ concat (entry_header <$> take i hdrs) ++ pre)
          ++ mid ++ (post ++ concat (entry_header <$> drop (S i) hdrs) ++ rest))
    by (by rewrite <- !app_assoc).
  rewrite slice_middle; [done| |done].
  rewrite !length_app, Haio, length_entry_headers, length_take.
  apply lookup_lt_Some in Hi. unfold entry_header_pos. lia.
Qed.

Lemma entry_header_offset_field (e : fw_entry) :
  entry_header e
  = (le_bytes 2 ELAN_VENDOR_ID ++ replicate 32%nat x00 ++ ELAN_PRODUCT_ID
     ++ [xff; xff] ++ [x34; x12])
    ++ le_bytes 4 (fw_offset e)
    ++ (le_bytes 4 (fw_size e) ++ le_bytes 4 (default 0 (fw_crc e))
        ++ replicate 12%nat x00 ++ replicate 16%nat xff).
Proof. reflexivity. Qed.

Lemma entry_header_size_field (e : fw_entry) :
  entry_header e
  = (le_bytes 2 ELAN_VENDOR_ID ++ replicate 32%nat x00 ++ ELAN_PRODUCT_ID
     ++ [xff; xff] ++ [x34; x12] ++ le_bytes 4 (fw_offset e))
    ++ le_bytes 4 (fw_size e)
    ++ (le_bytes 4 (default 0 (fw_crc e))
        ++ replicate 12%nat x00 ++ replicate 16%nat xff).
Proof. reflexivity. Qed.

Lemma entry_header_crc_field (e : fw_entry) :
  entry_header e
  = (le_bytes 2 ELAN_VENDOR_ID ++ replicate 32%nat x00 ++ ELAN_PRODUCT_ID
     ++ [xff; xff] ++ [x34; x12] ++ le_bytes 4 (fw_offset e)
     ++ le_bytes 4 (fw_size e))
    ++ le_bytes 4 (default 0 (fw_crc e))
    ++ (replicate 12%nat x00 ++ replicate 16%nat xff).
Proof. reflexivity. Qed.

(** The three fields of entry header [i] decode to what was packed. *)
Lemma parse_entry_fields (aio : bytes) (hdrs : list fw_entry) (rest : bytes)
  (i : nat) (e : fw_entry) (c : Z) :
  length aio = 32%nat -> hdrs !! i = Some e ->
  fits_width 4 (fw_offset e) -> fits_width 4 (fw_size e) ->
  fw_crc e = Some c -> fits_width 4 c ->
  let image := aio ++ concat (entry_header <$> hdrs) ++ rest in
  parse_entry_offset image i = fw_offset e
  /\ parse_entry_size image i = fw_size e
  /\ parse_entry_crc image i = c.
Proof.
  intros Haio Hi Ho Hs Hc Hcw image.
  unfold parse_entry_offset, parse_entry_size, parse_entry_crc.
  split; [|split].
  - rewrite <- (le_value_le_bytes_id 4 (fw_offset e)) by done.
    apply (field_in_entry_header aio hdrs rest i e _ _ _ Haio Hi
             (entry_header_offset_field e)).
  - rewrite <- (le_value_le_bytes_id 4 (fw_size e)) by done.
    apply (field_in_entry_header aio hdrs rest i e _ _ _ Haio Hi
             (entry_header_size_field e)).
  - rewrite <- (le_value_le_bytes_id 4 c) by done.
    replace c with (default 0 (fw_crc e)) by (by rewrite Hc).
    apply (field_in_entry_header aio hdrs rest i e _ _ _ Haio Hi
             (entry_header_crc_field e)).
Qed.

Lemma parse_container_fields (n : Z) (rest : bytes) :
  0 <= n <= 255 ->
  parse_header_size (aio_layout n ++ rest) = header_size_of n
  /\ parse_entry_count (aio_layout n ++ rest) = n.
Proof.
  intros Hn. unfold parse_header_size, parse_entry_count, header_size_of.
  split.
  - rewrite <- (le_value_le_bytes_id 2 (0x20 + n * 0x50))
      by (unfold fits_width; simpl; lia).
    eapply (field_in_aio_header n rest (AIO_MAGIC ++ [x01; x00])
              (le_bytes 2 (0x20 + n * 0x50))). reflexivity.
  - rewrite <- (le_value_le_bytes_id 1 n) at 2 by (simpl; lia).
    eapply (field_in_aio_header n rest
              (AIO_MAGIC ++ [x01; x00] ++ le_bytes 2 (0x20 + n * 0x50)
               ++ [x01] ++ [x78; x56; x34; x12] ++ [x00])
              (le_bytes 1 n)). reflexivity.
Qed.

Lemma calculate_crc32_range (data : bytes) : fits_width 4 (calculate_crc32 data).
Proof.
  unfold calculate_crc32, fits_width.
  change 0xFFFFFFFF with (Z.ones 32). rewrite Z.land_ones by lia.
  apply Z.mod_pos_bound. lia.
Qed.

Lemma lxor_range (n a b : Z) :
  0 <= n -> 0 <= a < 2 ^ n -> 0 <= b < 2 ^ n -> 0 <= Z.lxor a b < 2 ^ n.
Proof.
  intros Hn Ha Hb.
  assert (0 <= Z.lxor a b) as Hnn by (apply Z.lxor_nonneg; lia).
  split; [done|].
  destruct (Z.eq_dec (Z.lxor a b) 0) as [->|Hne]; [lia|].
  apply Z.log2_lt_pow2; [lia|].
  pose proof (Z.log2_lxor a b ltac:(lia) ltac:(lia)) as Hlog.
  assert (forall x, 0 <= x < 2 ^ n -> x <> 0 -> Z.log2 x < n) as Hlt.
  { intros x Hx Hx0. apply Z.log2_lt_pow2; lia. }
  destruct (Z.eq_dec a 0) as [->|Ha0]; destruct (Z.eq_dec b 0) as [->|Hb0].
  - by rewrite Z.lxor_0_l in Hne.
  - rewrite Z.lxor_0_l. by apply Hlt.
  - rewrite Z.lxor_0_r. by apply Hlt.
  - specialize (Hlt a Ha Ha0) as Hla. specialize (Hlt b Hb Hb0) as Hlb. lia.
Qed.

Lemma crc32_shift_range (crc : Z) :
  0 <= crc < 2 ^ 32 -> 0 <= crc32_shift crc < 2 ^ 32.
Proof.
  intros H. unfold crc32_shift.
  assert (0 <= Z.shiftr crc 1 < 2 ^ 32) as Hs.
  { rewrite Z.shiftr_div_pow2 by lia. change (2 ^ 1) with 2.
    split; [apply Z.div_pos; lia|].
    apply Z.div_lt_upper_bound; lia. }
  destruct (Z.testbit crc 0); [|done].
  apply lxor_range; [lia | done | unfold CRC32_POLY; lia].
Qed.

Lemma crc32_update_range (crc : Z) (b : byte) :
  0 <= crc < 2 ^ 32 -> 0 <= crc32_update crc b < 2 ^ 32.
Proof.
  intros H. unfold crc32_update.
  assert (0 <= Z.lxor crc (byte_to_Z b) < 2 ^ 32) as H0.
  { apply lxor_range; [lia | done |]. pose proof (byte_to_Z_range b). lia. }
  generalize dependent (Z.lxor crc (byte_to_Z b)). intros x Hx.
  do 8 (cbn [Nat.iter nat_rect]; apply crc32_shift_range). done.
Qed.

Lemma binascii_crc32_range (data : bytes) :
  0 <= binascii_crc32 data < 2 ^ 32.
Proof.
  unfold binascii_crc32. apply lxor_range; [lia| |lia].
  assert (0 <= 0xFFFFFFFF < 2 ^ 32) as H0 by lia.
  generalize dependent 0xFFFFFFFF.
  induction data as [|b data IH]; intros r Hr0; [done|].
  cbn [fold_left]. apply IH. by apply crc32_update_range.
Qed.

(** The mask of [calculate_crc32] keeps all 32 bits of the library's
    checksum. *)
Lemma calculate_crc32_binascii (data : bytes) :
  calculate_crc32 data = binascii_crc32 data.
Proof.
  unfold calculate_crc32. change 0xFFFFFFFF with (Z.ones 32).
  rewrite Z.land_ones by lia. apply Z.mod_small, binascii_crc32_range.
Qed.

(** C8: the headers of a produced file parse back to what the merge
    computed: header size and entry count from the container header, and
    from the 80-byte entry header of each index, in input order from 0x20
    on, the entry's resolved offset, size and checksum. *)
Theorem C8_headers_parse_back
  (targets : list target) (out : string) (fs fs' : filesystem)
  (headerSize totalSize : Z) :
  merge_binaries targets out fs = (fs', Ok (headerSize, totalSize)) ->
  exists image entries,
    contents fs' !! out = Some image
    /\ checksummed fs targets = Ok entries
    /\ length entries = length targets
    /\ parse_header_size image = headerSize
    /\ parse_entry_count image = Z.of_nat (length targets)
    /\ forall i e, entries !! i = Some e ->
         parse_entry_offset image i = fw_offset e
         /\ parse_entry_size image i = fw_size e
         /\ fw_crc e = Some (parse_entry_crc image i).
Proof.
  intros H. destruct (merge_binaries_image _ _ _ _ _ _ H) as (l & Hl & Himg).
  apply merge_binaries_inv in H as (l0 & Hl0 & Hhs & _ & Hcount & Hall & _).
  assert (l0 = l) as -> by congruence.
  eexists _, (set_crcs (composited headerSize l) l).
  split; [exact Himg|]. split.
  { unfold checksummed. rewrite Hl. cbn [mbind result_bind]. by rewrite Hhs. }
  split; [by rewrite length_set_crcs, (resolved_length _ _ _ Hl)|].
  destruct (parse_container_fields (Z.of_nat (length targets))
              (concat (entry_header <$> set_crcs (composited headerSize l) l)
               ++ drop (Z.to_nat headerSize) (composited headerSize l)))
    as [Hs Hn]; [lia|].
  split; [by rewrite Hs|]. split; [done|].
  intros i e Hi.
  destruct (proj1 (Forall_lookup _ _) Hall i e Hi) as (Ho & Hsz & c & Hc & Hcw).
  destruct (parse_entry_fields (aio_layout (Z.of_nat (length targets)))
              (set_crcs (composited headerSize l) l)
              (drop (Z.to_nat headerSize) (composited headerSize l))
              i e c (length_aio_layout _) Hi Ho Hsz Hc Hcw) as (-> & -> & ->).
  done.
Qed.

Lemma C8_witness :
  exists image entries,
    contents (fst (merge_binaries Overlap.targets "out.bin" Overlap.fs))
      !! "out.bin"%string = Some image
    /\ checksummed Overlap.fs Overlap.targets = Ok entries
    /\ length entries = length Overlap.targets
    /\ parse_header_size image = 0x110
    /\ parse_entry_count image = Z.of_nat (length Overlap.targets)
    /\ forall i e, entries !! i = Some e ->
         parse_entry_offset image i = fw_offset e
         /\ parse_entry_size image i = fw_size e
         /\ fw_crc e = Some (parse_entry_crc image i).
Proof.
  apply (C8_headers_parse_back Overlap.targets "out.bin" Overlap.fs _ 0x110 0x210).
  vm_compute. reflexivity.
Defined.

(** C2: the checksum stored in an entry's header is the CRC-32 with the
    reflected polynomial 0xEDB88320 ([binascii_crc32]: the shift register
    over [CRC32_POLY], started at and finally xored with 0xFFFFFFFF) of the
    bytes of the final output at [resolved_offset, resolved_offset + size),
    which are the bytes the buffer holds there once every payload has been
    copied; what an entry's own payload was plays no part. *)
Theorem C2_crc_of_final_bytes
  (targets : list target) (out : string) (fs fs' : filesystem)
  (headerSize totalSize : Z) (l : list fw_entry) (i : nat) (e : fw_entry) :
  merge_binaries targets out fs = (fs', Ok (headerSize, totalSize)) ->
  resolved fs targets = Ok l -> l !! i = Some e ->
  exists image,
    contents fs' !! out = Some image
    /\ parse_entry_crc image i
       = binascii_crc32
           (slice image (fw_offset e) (fw_offset e + fw_size e))
    /\ slice image (fw_offset e) (fw_offset e + fw_size e)
       = slice (composited headerSize l) (fw_offset e)
           (fw_offset e + fw_size e).
Proof.
  intros H Hl Hi.
  destruct (merge_binaries_image _ _ _ _ _ _ H) as (l0 & Hl0 & Himg).
  assert (l0 = l) as -> by congruence.
  apply merge_binaries_inv in H as (l0 & Hl0' & Hhs & Htot & _ & Hall & _).
  assert (l0 = l) as -> by congruence.
  eexists. split; [exact Himg|].
  set (final_bin := composited headerSize l) in *.
  pose proof (set_crcs_lookup final_bin l i e Hi) as Hi'.
  destruct (resolved_fits _ _ _ _ _ Hl Hi) as [Hge Hsz]. rewrite <- Hhs in Hge.
  destruct (find_max_end_spec headerSize l) as (Hm & Hends & _).
  specialize (Hends _ _ Hi). unfold fw_end in Hends. rewrite <- Htot in Hm, Hends.
  pose proof (length_composited _ _ _ Hl) as Hlen. cbv zeta in Hlen.
  rewrite <- Hhs, <- Htot in Hlen. fold final_bin in Hlen.
  pose proof (length_headers (Z.of_nat (length targets)) l (length targets)
                final_bin (resolved_length _ _ _ Hl)) as Hh.
  rewrite <- Hhs in Hh.
  assert (slice (aio_layout (Z.of_nat (length targets))
                 ++ concat (entry_header <$> set_crcs final_bin l)
                 ++ drop (Z.to_nat headerSize) final_bin)
            (fw_offset e) (fw_offset e + fw_size e)
          = slice final_bin (fw_offset e) (fw_offset e + fw_size e)) as Hslice.
  { rewrite app_assoc. replace (Z.to_nat headerSize) with
      (length (aio_layout (Z.of_nat (length targets))
               ++ concat (entry_header <$> set_crcs final_bin l))) by lia.
    apply slice_over_headers; lia. }
  split; [|exact Hslice]. rewrite Hslice.
  destruct (proj1 (Forall_lookup _ _) Hall i _ Hi') as (Ho & Hs & _).
  destruct (parse_entry_fields (aio_layout (Z.of_nat (length targets)))
              (set_crcs final_bin l) (drop (Z.to_nat headerSize) final_bin)
              i _ _ (length_aio_layout _) Hi' Ho Hs eq_refl
              (calculate_crc32_range _)) as (_ & _ & Hcrc).
  rewrite <- calculate_crc32_binascii. exact Hcrc.
Qed.

Lemma C2_witness :
  exists image,
    contents (fst (merge_binaries Overlap.targets "out.bin" Overlap.fs))
      !! "out.bin"%string = Some image
    /\ parse_entry_crc image 0
       = binascii_crc32
           (slice image (fw_offset Overlap.a)
              (fw_offset Overlap.a + fw_size Overlap.a))
    /\ slice image (fw_offset Overlap.a)
         (fw_offset Overlap.a + fw_size Overlap.a)
       = slice (composited 0x110 [Overlap.a; Overlap.b; Overlap.c])
           (fw_offset Overlap.a) (fw_offset Overlap.a + fw_size Overlap.a).
Proof.
  apply (C2_crc_of_final_bytes Overlap.targets "out.bin" Overlap.fs _
           0x110 0x210 [Overlap.a; Overlap.b; Overlap.c] 0 Overlap.a).
  - vm_compute. reflexivity.
  - vm_compute. reflexivity.
  - reflexivity.
Defined.

(** An overwritten entry: the 16 bytes 0xAA of a.bin are replaced by b.bin
    in the first four positions and by c.bin in the next four, and the
    checksum stored for a.bin is the one of the bytes that ended up in its
    range, not the one of its payload. *)
Example overlap_crc_of_overwritten_entry :
  slice Overlap.image 0x200 0x210
  = replicate 4%nat xbb ++ replicate 4%nat xcc ++ replicate 8%nat xaa
  /\ parse_entry_crc Overlap.image 0
     = calculate_crc32 (replicate 4%nat xbb ++ replicate 4%nat xcc
                        ++ replicate 8%nat xaa)
  /\ parse_entry_crc Overlap.image 0 <> calculate_crc32 (replicate 16%nat xaa).
Proof. vm_compute. repeat split. discriminate. Qed.

(** The check value of CRC-32: the checksum of the digits "123456789". *)
Example crc32_check_value :
  calculate_crc32 [x31; x32; x33; x34; x35; x36; x37; x38; x39] = 0xCBF43926.
Proof. reflexivity. Qed.

(** The same check value, and the checksums of the empty string and of
    the letter "a", for the library's function. *)
Example binascii_crc32_check_values :
  binascii_crc32 [x31; x32; x33; x34; x35; x36; x37; x38; x39] = 0xCBF43926
  /\ binascii_crc32 [] = 0
  /\ binascii_crc32 [x61] = 0xE8B7BE43.
Proof. repeat split. Qed.

(** ** The entry header, byte by byte *)

(** C6 (as amended): in a serialized entry header the integer fields are
    little-endian, the reserved bytes 0x40..0x4F and the unique id are
    0xFF, and both the bytes 0x02..0x21 between vendor id and product id
    and the twelve bytes 0x34..0x3F after the checksum are zero. *)
Theorem C6_entry_header_layout (fw_offset fw_size crc32_val : Z) (h : bytes) :
  generate_elan_header fw_offset fw_size crc32_val = Ok h ->
  h = elan_layout fw_offset fw_size crc32_val
  /\ length h = 0x50%nat
  /\ le_value (slice h 0x00 0x02) = 0x04F3
  /\ slice h 0x02 0x22 = replicate 32%nat x00
  /\ slice h 0x22 0x24 = [x08; x56]
  /\ slice h 0x24 0x26 = [xff; xff]
  /\ le_value (slice h 0x26 0x28) = 0x1234
  /\ le_value (slice h 0x28 0x2C) = fw_offset
  /\ le_value (slice h 0x2C 0x30) = fw_size
  /\ le_value (slice h 0x30 0x34) = crc32_val
  /\ slice h 0x34 0x40 = replicate 12%nat x00
  /\ slice h 0x40 0x50 = replicate 16%nat xff.
Proof.
  intros H. apply generate_elan_header_inv in H as (Ho & Hs & Hc & ->).
  split; [done|]. split; [done|].
  split; [reflexivity|]. split; [reflexivity|]. split; [reflexivity|].
  split; [reflexivity|]. split; [reflexivity|].
  split; [|split; [|split]].
  - rewrite <- (le_value_le_bytes_id 4 fw_offset) at 2 by done. reflexivity.
  - rewrite <- (le_value_le_bytes_id 4 fw_size) at 2 by done. reflexivity.
  - rewrite <- (le_value_le_bytes_id 4 crc32_val) at 2 by done. reflexivity.
  - split; reflexivity.
Qed.

Lemma C6_witness :
  let h := elan_layout 0x110 0x1000 0x726F6742 in
  h = elan_layout 0x110 0x1000 0x726F6742
  /\ length h = 0x50%nat
  /\ le_value (slice h 0x00 0x02) = 0x04F3
  /\ slice h 0x02 0x22 = replicate 32%nat x00
  /\ slice h 0x22 0x24 = [x08; x56]
  /\ slice h 0x24 0x26 = [xff; xff]
  /\ le_value (slice h 0x26 0x28) = 0x1234
  /\ le_value (slice h 0x28 0x2C) = 0x110
  /\ le_value (slice h 0x2C 0x30) = 0x1000
  /\ le_value (slice h 0x30 0x34) = 0x726F6742
  /\ slice h 0x34 0x40 = replicate 12%nat x00
  /\ slice h 0x40 0x50 = replicate 16%nat xff.
Proof.
  apply (C6_entry_header_layout 0x110 0x1000 0x726F6742).
  vm_compute. reflexivity.
Defined.

(** C6 as stated fails: the header generated for offset 0x110, size
    0x1000 and checksum 0x726F6742 has zeros, not 0xFF, in the 32 bytes
    between vendor id and product id. *)
Lemma C6_counterexample : ~ gap_filled_with_ff 0x110 0x1000 0x726F6742.
Proof.
  intros Hclaim.
  specialize (Hclaim (elan_layout 0x110 0x1000 0x726F6742)
                ltac:(vm_compute; reflexivity)).
  vm_compute in Hclaim. discriminate Hclaim.
Qed.

(** * Further properties of [merger.py] *)

(** ** Exact error conditions of the header generators *)

Lemma generate_elan_header_err (o s c : Z) :
  ~ (fits_width 4 o /\ fits_width 4 s /\ fits_width 4 c) ->
  generate_elan_header o s c = Err StructError.
Proof.
  intros Hbad. unfold generate_elan_header.
  rewrite struct_pack_into_ok by (vm_compute; done).
  cbn [mbind result_bind].
  destruct (decide (fits_width 4 o)) as [Ho|Ho];
    [|by rewrite (struct_pack_into_err 4 _ _ o)].
  rewrite (struct_pack_into_ok 4 _ _ o) by (done || vm_compute; done).
  cbn [mbind result_bind].
  destruct (decide (fits_width 4 s)) as [Hs|Hs];
    [|by rewrite (struct_pack_into_err 4 _ _ s)].
  rewrite (struct_pack_into_ok 4 _ _ s) by (done || vm_compute; done).
  cbn [mbind result_bind].
  destruct (decide (fits_width 4 c)) as [Hc|Hc];
    [|by rewrite (struct_pack_into_err 4 _ _ c)].
  tauto.
Qed.

Lemma generate_elan_header_cases (fw_offset fw_size crc32_val : Z) :
  generate_elan_header fw_offset fw_size crc32_val
  = if decide (fits_width 4 fw_offset /\ fits_width 4 fw_size
               /\ fits_width 4 crc32_val)
    then Ok (elan_layout fw_offset fw_size crc32_val)
    else Err StructError.
Proof.
  case_decide as H.
  - destruct H as (? & ? & ?). by apply generate_elan_header_ok.
  - by apply generate_elan_header_err.
Qed.

(** X1: The entry header is produced exactly for three unsigned 32-bit values;
    any other value raises [struct.error]. *)
Theorem generate_elan_header_closed_form (fw_offset fw_size crc32_val : Z) :
  generate_elan_header fw_offset fw_size crc32_val
  = if decide (fits_width 4 fw_offset /\ fits_width 4 fw_size
               /\ fits_width 4 crc32_val)
    then Ok (elan_layout fw_offset fw_size crc32_val)
    else Err StructError.
Proof. apply generate_elan_header_cases. Qed.

Lemma generate_aio_header_cases (fw_count : Z) :
  generate_aio_header fw_count
  = if decide (0 <= fw_count <= 255)
    then Ok (aio_layout fw_count)
    else Err StructError.
Proof.
  case_decide as H.
  - by apply generate_aio_header_ok.
  - destruct (Z.lt_ge_cases fw_count 0) as [Hneg|Hpos].
    + unfold generate_aio_header.
      rewrite (struct_pack_err 2) by (unfold fits_width; simpl; lia).
      reflexivity.
    + apply generate_aio_header_too_many. lia.
Qed.

(** X2: The container header is produced exactly for counts 0..255; a negative
    count or one above 255 raises [struct.error]. *)
Theorem generate_aio_header_closed_form (fw_count : Z) :
  generate_aio_header fw_count
  = if decide (0 <= fw_count <= 255)
    then Ok (aio_layout fw_count)
    else Err StructError.
Proof. apply generate_aio_header_cases. Qed.

(** X3: The container header, field by field as its docstring lists them. *)
Theorem generate_aio_header_fields (fw_count : Z) (h : bytes) :
  generate_aio_header fw_count = Ok h ->
  length h = 0x20%nat
  /\ slice h 0x00 0x04 = AIO_MAGIC
  /\ le_value (slice h 0x04 0x06) = 0x0001
  /\ le_value (slice h 0x06 0x08) = 0x20 + fw_count * 0x50
  /\ slice h 0x08 0x09 = [x01]
  /\ le_value (slice h 0x09 0x0D) = 0x12345678
  /\ slice h 0x0D 0x0E = [x00]
  /\ le_value (slice h 0x0E 0x0F) = fw_count
  /\ slice h 0x0F 0x20 = replicate 17%nat xff.
Proof.
  rewrite generate_aio_header_cases. case_decide as Hn; [|done].
  intros [= <-].
  split; [reflexivity|]. split; [reflexivity|]. split; [reflexivity|].
  split.
  { rewrite <- (le_value_le_bytes_id 2 (0x20 + fw_count * 0x50))
      by (simpl; lia). reflexivity. }
  split; [reflexivity|]. split; [reflexivity|]. split; [reflexivity|].
  split; [|reflexivity].
  transitivity (le_value (le_bytes 1 fw_count)); [reflexivity|].
  apply le_value_le_bytes_id. simpl. lia.
Qed.

Lemma generate_aio_header_fields_witness :
  let h := aio_layout 3 in
  length h = 0x20%nat
  /\ slice h 0x00 0x04 = AIO_MAGIC
  /\ le_value (slice h 0x04 0x06) = 0x0001
  /\ le_value (slice h 0x06 0x08) = 0x20 + 3 * 0x50
  /\ slice h 0x08 0x09 = [x01]
  /\ le_value (slice h 0x09 0x0D) = 0x12345678
  /\ slice h 0x0D 0x0E = [x00]
  /\ le_value (slice h 0x0E 0x0F) = 3
  /\ slice h 0x0F 0x20 = replicate 17%nat xff.
Proof.
  apply (generate_aio_header_fields 3). vm_compute. reflexivity.
Defined.

(** ** The outcome of a merge in closed form *)

Lemma generate_elan_headers_closed_form (final_bin : bytes) (l : list fw_entry) :
  forall acc,
    for_each (fun elan_headers t =>
                crc ← match fw_crc t with
                      | Some c => Ok c
                      | None => Err (KeyError "crc")
                      end;
                h ← generate_elan_header (fw_offset t) (fw_size t) crc;
                Ok (elan_headers ++ h)) (set_crcs final_bin l) acc
    = if decide (Forall fits_entry_header l)
      then Ok (acc ++ concat (entry_header <$> set_crcs final_bin l))
      else Err StructError.
Proof.
  induction l as [|e l IH]; intros acc.
  - cbn. rewrite decide_True by constructor. by rewrite app_nil_r.
  - cbn [set_crcs map for_each fw_crc fw_offset fw_size].
    fold (set_crcs final_bin l). cbn [mbind result_bind].
    rewrite generate_elan_header_cases.
    pose proof (calculate_crc32_range
                  (slice final_bin (fw_offset e) (fw_offset e + fw_size e)))
      as Hcrc.
    destruct (decide (fits_entry_header e)) as [[Ho Hs]|Hbad].
    + rewrite decide_True by done. cbn [mbind result_bind]. rewrite IH.
      destruct (decide (Forall fits_entry_header l)) as [Hl|Hl].
      * rewrite decide_True by (constructor; done).
        rewrite fmap_cons. cbn [concat]. by rewrite <- app_assoc.
      * rewrite decide_False; [done|]. by intros [_ ?]%Forall_cons.
    + rewrite decide_False by (unfold fits_entry_header in Hbad; tauto).
      cbn [mbind result_bind].
      rewrite decide_False; [done|]. by intros [? _]%Forall_cons.
Qed.

(** The outcome of [merge_binaries], failure by failure in the order the
    code meets them: a source that cannot be read, more than 255 entries,
    an offset or size that is not an unsigned 32-bit value, a destination
    that cannot be opened; otherwise the image is written and the sizes
    are returned. *)
Lemma merge_binaries_closed_form targets out fs :
  merge_binaries targets out fs
  = match resolved fs targets with
    | Err e => (fs, Err e)
    | Ok l =>
        let hsz := header_size_of (Z.of_nat (length targets)) in
        if decide (Z.of_nat (length targets) <= 255) then
          if decide (Forall fits_entry_header l) then
            if decide (out ∈ unwritable fs) then (fs, Err (OSError out))
            else ({| contents := <[out := merged_image hsz l]> (contents fs);
                     unwritable := unwritable fs |},
                  Ok (hsz, find_max_end hsz l))
          else (fs, Err StructError)
        else (fs, Err StructError)
    end.
Proof.
  unfold merge_binaries. unfold mbind at 1, IO_bind.
  rewrite gather_resolve_from, resolved_eq.
  fold (header_size_of (Z.of_nat (length targets))).
  set (ths := header_size_of (Z.of_nat (length targets))).
  destruct (resolve_from fs ths ths targets) as [l|] eqn:Hres; [|done].
  assert (resolved fs targets = Ok l) as Hl by (by rewrite resolved_eq).
  fold (composited ths l). cbv zeta.
  unfold mbind at 1, IO_bind, pure.
  rewrite generate_aio_header_cases.
  destruct (decide (Z.of_nat (length targets) <= 255)) as [Hn|Hn].
  2: { rewrite decide_False by lia. done. }
  rewrite decide_True by lia.
  unfold mbind at 1, IO_bind. unfold generate_elan_headers.
  rewrite generate_elan_headers_closed_form.
  destruct (decide (Forall fits_entry_header l)) as [Hfit|Hfit]; [|done].
  unfold mbind at 1, IO_bind, write_file.
  destruct (decide (out ∈ unwritable fs)) as [|Hw]; [done|].
  unfold mret, IO_ret.
  pose proof (length_composited _ _ _ Hl) as Hlen. cbv zeta in Hlen.
  fold ths in Hlen.
  destruct (find_max_end_spec ths l) as (Hm & _).
  pose proof (header_size_of_pos (length targets)) as Hpos. fold ths in Hpos.
  rewrite slice_assign_in_range by lia.
  change (take (Z.to_nat 0) ?b) with (@nil byte).
  rewrite app_nil_l, <- app_assoc. unfold merged_image.
  by rewrite (resolved_length _ _ _ Hl).
Qed.

(** X6: A merge that returns had every source readable, at most 255
    entries, every resolved offset and every size below 2^32, and a
    destination that could be opened. *)
Theorem merge_returns_only_if (targets : list target) (out : string)
  (fs fs' : filesystem) (r : Z * Z) :
  merge_binaries targets out fs = (fs', Ok r) ->
  exists l, resolved fs targets = Ok l
            /\ (length targets <= 255)%nat
            /\ (forall i e, l !! i = Some e ->
                  fw_offset e < 2 ^ 32 /\ fw_size e < 2 ^ 32)
            /\ out ∉ unwritable fs.
Proof.
  rewrite merge_binaries_closed_form. intros H.
  destruct (resolved fs targets) as [l|]; [|done].
  cbv zeta in H. repeat case_decide; try done.
  exists l. split; [done|]. split; [lia|]. split; [|done].
  intros i e Hi.
  destruct (proj1 (Forall_lookup _ _) H1 i e Hi) as [[_ ?] [_ ?]]. done.
Qed.

Lemma merge_returns_only_if_witness :
  exists l, resolved Overlap.fs Overlap.targets = Ok l
            /\ (length Overlap.targets <= 255)%nat
            /\ (forall i e, l !! i = Some e ->
                  fw_offset e < 2 ^ 32 /\ fw_size e < 2 ^ 32)
            /\ "out.bin"%string ∉ unwritable Overlap.fs.
Proof.
  apply (merge_returns_only_if Overlap.targets "out.bin" Overlap.fs
           (fst (merge_binaries Overlap.targets "out.bin" Overlap.fs))
           (0x110, 0x210)).
  vm_compute. reflexivity.
Defined.

(** X7: With all sources readable, an entry whose resolved offset or
    whose size is 2^32 or more makes the merge raise before the
    destination is opened: nothing is written. *)
Theorem merge_oversized_field_raises (targets : list target) (out : string)
  (fs : filesystem) (l : list fw_entry) (i : nat) (e : fw_entry) :
  resolved fs targets = Ok l -> l !! i = Some e ->
  2 ^ 32 <= fw_offset e \/ 2 ^ 32 <= fw_size e ->
  exists ex, merge_binaries targets out fs = (fs, Err ex).
Proof.
  intros Hl Hi Hbig. rewrite merge_binaries_closed_form, Hl. cbv zeta.
  case_decide; [|by eexists]. rewrite decide_False; [by eexists|].
  intros Hall. destruct (proj1 (Forall_lookup _ _) Hall i e Hi) as [[_ ?] [_ ?]].
  change (2 ^ (8 * Z.of_nat 4)) with (2 ^ 32) in *. lia.
Qed.

Lemma merge_oversized_field_raises_witness :
  exists ex,
    merge_binaries [ {| t_path := "a.bin"; t_offset := Some (2 ^ 32) |} ]
      "out.bin" Overlap.fs
    = (Overlap.fs, Err ex).
Proof.
  apply (merge_oversized_field_raises _ _ _
           [ {| fw_data := replicate 16%nat xaa; fw_offset := 2 ^ 32;
                fw_size := 16; fw_crc := None |} ] 0
           {| fw_data := replicate 16%nat xaa; fw_offset := 2 ^ 32;
              fw_size := 16; fw_crc := None |});
    [vm_compute; reflexivity | reflexivity | left; simpl; lia].
Defined.

(** X8: Merging no entries at all is accepted: the destination receives the
    32-byte container header with count 0, and (0x20, 0x20) is returned,
    unless the destination cannot be opened. *)
Theorem merge_of_no_entries (out : string) (fs : filesystem) :
  merge_binaries [] out fs
  = if decide (out ∈ unwritable fs) then (fs, Err (OSError out))
    else ({| contents := <[out := aio_layout 0]> (contents fs);
             unwritable := unwritable fs |}, Ok (0x20, 0x20)).
Proof. rewrite merge_binaries_closed_form. reflexivity. Qed.

(** ** A merge depends on the files it names only *)

Lemma resolve_from_ext (fs1 fs2 : filesystem) (ths : Z) (targets : list target) :
  (forall i t, targets !! i = Some t ->
               contents fs1 !! t_path t = contents fs2 !! t_path t) ->
  forall cur, resolve_from fs1 ths cur targets = resolve_from fs2 ths cur targets.
Proof.
  induction targets as [|t ts IH]; intros Hsame cur; [done|].
  cbn [resolve_from]. rewrite <- (Hsame 0%nat t eq_refl).
  destruct (contents fs1 !! t_path t); [|done].
  rewrite IH; [done|]. intros i t' Hi. apply (Hsame (S i) t' Hi).
Qed.

Lemma merge_binaries_ext targets out fs1 fs2 :
  (forall i t, targets !! i = Some t ->
               contents fs1 !! t_path t = contents fs2 !! t_path t) ->
  (out ∈ unwritable fs1 <-> out ∈ unwritable fs2) ->
  snd (merge_binaries targets out fs1) = snd (merge_binaries targets out fs2)
  /\ (forall r, snd (merge_binaries targets out fs1) = Ok r ->
        contents (fst (merge_binaries targets out fs1)) !! out
        = contents (fst (merge_binaries targets out fs2)) !! out).
Proof.
  intros Hsame Hw. rewrite !merge_binaries_closed_form, !resolved_eq.
  rewrite (resolve_from_ext fs1 fs2 _ targets Hsame).
  destruct (resolve_from fs2 _ _ targets) as [l|]; [|done].
  cbv zeta. repeat case_decide; try tauto; try done.
  split; [done|]. intros r _. cbn. by rewrite !lookup_insert_eq.
Qed.

(** X9: Two file systems that agree on the source files of the targets, and
    on whether the destination can be opened, give the same outcome and,
    when the merge returns, the same destination contents. *)
Theorem merge_depends_on_sources_only (targets : list target) (out : string)
  (fs1 fs2 : filesystem) :
  (forall i t, targets !! i = Some t ->
               contents fs1 !! t_path t = contents fs2 !! t_path t) ->
  (out ∈ unwritable fs1 <-> out ∈ unwritable fs2) ->
  snd (merge_binaries targets out fs1) = snd (merge_binaries targets out fs2)
  /\ (forall r, snd (merge_binaries targets out fs1) = Ok r ->
        contents (fst (merge_binaries targets out fs1)) !! out
        = contents (fst (merge_binaries targets out fs2)) !! out).
Proof. apply merge_binaries_ext. Qed.

Lemma merge_depends_on_sources_only_witness :
  snd (merge_binaries Overlap.targets "out.bin" Overlap.fs)
  = snd (merge_binaries Overlap.targets "out.bin"
           {| contents := <["other.bin"%string := [x00]]> (contents Overlap.fs);
              unwritable := {[ "locked.bin"%string ]} |})
  /\ (forall r, snd (merge_binaries Overlap.targets "out.bin" Overlap.fs) = Ok r ->
        contents (fst (merge_binaries Overlap.targets "out.bin" Overlap.fs))
          !! "out.bin"%string
        = contents (fst (merge_binaries Overlap.targets "out.bin"
             {| contents := <["other.bin"%string := [x00]]> (contents Overlap.fs);
                unwritable := {[ "locked.bin"%string ]} |})) !! "out.bin"%string).
Proof.
  apply (merge_depends_on_sources_only Overlap.targets "out.bin" Overlap.fs).
  - intros [|[|[|i]]] t Ht; inversion Ht; subst; vm_compute; reflexivity.
  - cbn [unwritable Overlap.fs]. set_solver.
Defined.

(** ** The written image *)

Lemma merge_ok_image targets out fs fs' hsz total :
  merge_binaries targets out fs = (fs', Ok (hsz, total)) ->
  exists l,
    resolved fs targets = Ok l
    /\ hsz = header_size_of (Z.of_nat (length targets))
    /\ total = find_max_end hsz l
    /\ Forall fits_entry_header l
    /\ contents fs' !! out = Some (merged_image hsz l).
Proof.
  rewrite merge_binaries_closed_form.
  destruct (resolved fs targets) as [l|]; [|done].
  cbv zeta. repeat case_decide; try done.
  intros [= <- <- <-]. exists l. repeat split; try done.
  cbn. by rewrite lookup_insert_eq.
Qed.

Section image.
Context (fs : filesystem) (targets : list target) (l : list fw_entry).
Hypothesis Hl : resolved fs targets = Ok l.
Let hsz := header_size_of (Z.of_nat (length targets)).
Let total := find_max_end hsz l.

Lemma image_bounds :
  0x20 <= hsz <= total
  /\ Z.of_nat (length (composited hsz l)) = total
  /\ Z.of_nat (length (aio_layout (Z.of_nat (length l))
                       ++ concat (entry_header
                                    <$> set_crcs (composited hsz l) l)))
     = hsz.
Proof.
  split; [|split].
  - split; [apply header_size_of_pos | apply find_max_end_spec].
  - apply (length_composited _ _ _ Hl).
  - apply length_headers, (resolved_length _ _ _ Hl).
Qed.

Lemma merged_image_alt :
  merged_image hsz l
  = (aio_layout (Z.of_nat (length l))
     ++ concat (entry_header <$> set_crcs (composited hsz l) l))
    ++ drop (length (aio_layout (Z.of_nat (length l))
                     ++ concat (entry_header
                                  <$> set_crcs (composited hsz l) l)))
         (composited hsz l).
Proof.
  destruct image_bounds as (_ & _ & Hh).
  unfold merged_image. rewrite <- app_assoc. do 3 f_equal. lia.
Qed.

Lemma length_merged_image : Z.of_nat (length (merged_image hsz l)) = total.
Proof.
  destruct image_bounds as (Hb & Hc & Hh).
  rewrite merged_image_alt, length_app, length_drop. lia.
Qed.

(** From the header size on the image is the composited buffer. *)
Lemma merged_image_lookup_above (p : Z) :
  hsz <= p ->
  merged_image hsz l !! Z.to_nat p = composited hsz l !! Z.to_nat p.
Proof.
  intros Hp. destruct image_bounds as (Hb & Hc & Hh).
  rewrite merged_image_alt. apply lookup_over_headers. lia.
Qed.

Lemma merged_image_slice_above (lo hi : Z) :
  hsz <= lo <= hi -> hi <= total ->
  slice (merged_image hsz l) lo hi = slice (composited hsz l) lo hi.
Proof.
  intros H1 H2. destruct image_bounds as (Hb & Hc & Hh).
  rewrite merged_image_alt. apply slice_over_headers; lia.
Qed.

(** Below the header size the image is the two headers. *)
Lemma merged_image_headers :
  slice (merged_image hsz l) 0 hsz
  = aio_layout (Z.of_nat (length l))
    ++ concat (entry_header <$> set_crcs (composited hsz l) l).
Proof.
  destruct image_bounds as (Hb & Hc & Hh).
  rewrite merged_image_alt.
  rewrite <- (app_nil_l ((_ ++ _) ++ drop _ _)).
  apply slice_middle; [done | lia].
Qed.

Lemma resolved_entry_bounds i e :
  l !! i = Some e ->
  hsz <= fw_offset e /\ 0 <= fw_size e /\ fw_end e <= total
  /\ fw_size e = Z.of_nat (length (fw_data e)).
Proof.
  intros Hi. destruct (resolved_fits _ _ _ _ _ Hl Hi) as [Hge Hsz].
  destruct (find_max_end_spec hsz l) as (_ & Hends & _).
  specialize (Hends _ _ Hi). fold hsz in Hge. fold total in Hends. lia.
Qed.
End image.

Lemma lookup_slice (buf : bytes) (lo hi : Z) (k : nat) :
  0 <= lo <= hi -> hi <= Z.of_nat (length buf) -> Z.of_nat k < hi - lo ->
  slice buf lo hi !! k = buf !! Z.to_nat (lo + Z.of_nat k).
Proof.
  intros H1 H2 H3. rewrite slice_in_range by done.
  rewrite lookup_take_lt by lia. rewrite lookup_drop. f_equal. lia.
Qed.

Lemma length_slice (buf : bytes) (lo hi : Z) :
  0 <= lo <= hi -> hi <= Z.of_nat (length buf) ->
  Z.of_nat (length (slice buf lo hi)) = hi - lo.
Proof.
  intros H1 H2. rewrite slice_in_range by done.
  rewrite length_take, length_drop. lia.
Qed.

(** X10: The first [headerSize] bytes of a written image are the container
    header followed by the entry headers, one per entry in input order,
    of the entries as checksummed; in particular the image starts with
    the magic. No payload byte lands there. *)
Theorem merge_header_region (targets : list target) (out : string)
  (fs fs' : filesystem) (headerSize totalSize : Z) :
  merge_binaries targets out fs = (fs', Ok (headerSize, totalSize)) ->
  exists image entries,
    contents fs' !! out = Some image
    /\ checksummed fs targets = Ok entries
    /\ slice image 0 headerSize
       = aio_layout (Z.of_nat (length targets))
         ++ concat (entry_header <$> entries)
    /\ slice image 0 4 = AIO_MAGIC.
Proof.
  intros H. apply merge_ok_image in H as (l & Hl & -> & _ & _ & Himg).
  eexists _, _. split; [exact Himg|]. split.
  { unfold checksummed. rewrite Hl. reflexivity. }
  split.
  - rewrite (merged_image_headers _ _ _ Hl).
    by rewrite (resolved_length _ _ _ Hl).
  - unfold merged_image. unfold aio_layout. rewrite <- !app_assoc.
    rewrite <- (app_nil_l (AIO_MAGIC ++ _)). by apply slice_middle.
Qed.

Lemma merge_header_region_witness :
  exists image entries,
    contents (fst (merge_binaries Overlap.targets "out.bin" Overlap.fs))
      !! "out.bin"%string = Some image
    /\ checksummed Overlap.fs Overlap.targets = Ok entries
    /\ slice image 0 0x110
       = aio_layout (Z.of_nat (length Overlap.targets))
         ++ concat (entry_header <$> entries)
    /\ slice image 0 4 = AIO_MAGIC.
Proof.
  apply (merge_header_region Overlap.targets "out.bin" Overlap.fs _ 0x110 0x210).
  vm_compute. reflexivity.
Defined.

(** X11: A position between the header size and the end of the image that no
    resolved range covers holds a zero byte. *)
Theorem merge_gap_is_zero (targets : list target) (out : string)
  (fs fs' : filesystem) (headerSize totalSize : Z) (l : list fw_entry) (p : Z) :
  merge_binaries targets out fs = (fs', Ok (headerSize, totalSize)) ->
  resolved fs targets = Ok l ->
  headerSize <= p < totalSize ->
  (forall i e, l !! i = Some e -> ~ covers e p) ->
  exists image, contents fs' !! out = Some image
                /\ image !! Z.to_nat p = Some x00.
Proof.
  intros H Hl Hp Hno.
  apply merge_ok_image in H as (l0 & Hl0 & -> & -> & _ & Himg).
  assert (l0 = l) as -> by congruence.
  eexists. split; [exact Himg|].
  pose proof (header_size_of_pos (length targets)) as Hpos.
  rewrite (merged_image_lookup_above _ _ _ Hl) by lia.
  unfold composited. rewrite copy_payloads_untouched.
  - apply lookup_replicate_2. lia.
  - rewrite length_replicate. apply (resolved_all_fit _ _ _ Hl).
  - lia.
  - done.
Qed.

Lemma merge_gap_is_zero_witness :
  exists image,
    contents (fst (merge_binaries Overlap.targets "out.bin" Overlap.fs))
      !! "out.bin"%string = Some image
    /\ image !! Z.to_nat 0x150 = Some x00.
Proof.
  apply (merge_gap_is_zero Overlap.targets "out.bin" Overlap.fs _ 0x110 0x210
           [Overlap.a; Overlap.b; Overlap.c] 0x150).
  - vm_compute. reflexivity.
  - vm_compute. reflexivity.
  - lia.
  - intros [|[|[|i]]] e He; inversion He; subst;
      unfold covers, fw_end; simpl; lia.
Defined.

(** The checksum field of entry [i] in the image. *)
Lemma merged_image_entry_crc fs targets l i e :
  resolved fs targets = Ok l -> Forall fits_entry_header l ->
  l !! i = Some e ->
  let hsz := header_size_of (Z.of_nat (length targets)) in
  parse_entry_crc (merged_image hsz l) i
  = calculate_crc32
      (slice (composited hsz l) (fw_offset e) (fw_offset e + fw_size e)).
Proof.
  intros Hl Hfit Hi hsz.
  pose proof (set_crcs_lookup (composited hsz l) l i e Hi) as Hi'.
  destruct (proj1 (Forall_lookup _ _) Hfit i e Hi) as [Ho Hs].
  destruct (parse_entry_fields (aio_layout (Z.of_nat (length l)))
              (set_crcs (composited hsz l) l)
              (drop (Z.to_nat hsz) (composited hsz l))
              i _ _ (length_aio_layout _) Hi' Ho Hs eq_refl
              (calculate_crc32_range _)) as (_ & _ & Hcrc).
  exact Hcrc.
Qed.

(** The three fields of entry header [i] in the image. *)
Lemma merged_image_entry_fields fs targets l i e :
  resolved fs targets = Ok l -> Forall fits_entry_header l ->
  l !! i = Some e ->
  let hsz := header_size_of (Z.of_nat (length targets)) in
  parse_entry_offset (merged_image hsz l) i = fw_offset e
  /\ parse_entry_size (merged_image hsz l) i = fw_size e.
Proof.
  intros Hl Hfit Hi hsz.
  pose proof (set_crcs_lookup (composited hsz l) l i e Hi) as Hi'.
  destruct (proj1 (Forall_lookup _ _) Hfit i e Hi) as [Ho Hs].
  destruct (parse_entry_fields (aio_layout (Z.of_nat (length l)))
              (set_crcs (composited hsz l) l)
              (drop (Z.to_nat hsz) (composited hsz l))
              i _ _ (length_aio_layout _) Hi' Ho Hs eq_refl
              (calculate_crc32_range _)) as (Hofs & Hsz & _).
  done.
Qed.

(** In the image, the range of an entry that no later entry reaches into
    is the entry's payload, and the checksum field is the payload's. *)
Lemma merged_image_untouched_entry fs targets l i e :
  resolved fs targets = Ok l -> Forall fits_entry_header l ->
  l !! i = Some e ->
  (forall j e' p, (i < j)%nat -> l !! j = Some e' ->
                  covers e p -> ~ covers e' p) ->
  let hsz := header_size_of (Z.of_nat (length targets)) in
  slice (merged_image hsz l) (fw_offset e) (fw_offset e + fw_size e)
  = fw_data e
  /\ parse_entry_crc (merged_image hsz l) i = calculate_crc32 (fw_data e).
Proof.
  intros Hl Hfit Hi Hlast hsz.
  destruct (resolved_entry_bounds _ _ _ Hl i e Hi) as (Hge & Hnn & Hend & Hsz).
  destruct (image_bounds _ _ _ Hl) as (Hb & Hc & _).
  unfold fw_end in Hend. fold hsz in Hge, Hend, Hb, Hc.
  assert (slice (composited hsz l) (fw_offset e) (fw_offset e + fw_size e)
          = fw_data e) as Hslice.
  { apply list_eq. intros k.
    destruct (decide (Z.of_nat k < fw_size e)) as [Hk|Hk].
    - rewrite lookup_slice by lia. unfold composited.
      rewrite (copy_payloads_last_wins l _ _ i e).
      + f_equal. lia.
      + rewrite length_replicate. apply (resolved_all_fit _ _ _ Hl).
      + done.
      + unfold covers, fw_end. lia.
      + intros j e' Hj He'. apply (Hlast j e' _ Hj He').
        unfold covers, fw_end. lia.
    - rewrite (lookup_ge_None_2 (fw_data e)) by lia.
      apply lookup_ge_None_2.
      pose proof (length_slice (composited hsz l) (fw_offset e)
                    (fw_offset e + fw_size e)). lia. }
  split.
  - rewrite (merged_image_slice_above _ _ _ Hl) by (fold hsz; lia). done.
  - pose proof (merged_image_entry_crc _ _ _ _ _ Hl Hfit Hi) as Hcrc.
    cbv zeta in Hcrc. fold hsz in Hcrc. by rewrite Hcrc, Hslice.
Qed.

(** X12: An entry whose range no later entry reaches into is stored intact:
    its range of the image is its source file, byte for byte, and its
    header carries the CRC-32 of that file. *)
Theorem merge_untouched_entry_intact (targets : list target) (out : string)
  (fs fs' : filesystem) (headerSize totalSize : Z) (l : list fw_entry)
  (i : nat) (e : fw_entry) :
  merge_binaries targets out fs = (fs', Ok (headerSize, totalSize)) ->
  resolved fs targets = Ok l -> l !! i = Some e ->
  (forall j e' p, (i < j)%nat -> l !! j = Some e' ->
                  covers e p -> ~ covers e' p) ->
  exists image t payload,
    contents fs' !! out = Some image
    /\ targets !! i = Some t
    /\ contents fs !! t_path t = Some payload
    /\ slice image (fw_offset e) (fw_offset e + fw_size e) = payload
    /\ parse_entry_crc image i = calculate_crc32 payload.
Proof.
  intros H Hl Hi Hlast.
  apply merge_ok_image in H as (l0 & Hl0 & -> & -> & Hfit & Himg).
  assert (l0 = l) as -> by congruence.
  destruct (resolved_lookup _ _ _ _ _ Hl Hi) as (t & Ht & Hdata & _).
  destruct (merged_image_untouched_entry _ _ _ _ _ Hl Hfit Hi Hlast)
    as [Hslice Hcrc].
  by exists (merged_image (header_size_of (Z.of_nat (length targets))) l),
            t, (fw_data e).
Qed.

Lemma merge_untouched_entry_intact_witness :
  exists image t payload,
    contents (fst (merge_binaries Overlap.targets "out.bin" Overlap.fs))
      !! "out.bin"%string = Some image
    /\ Overlap.targets !! 2%nat = Some t
    /\ contents Overlap.fs !! t_path t = Some payload
    /\ slice image (fw_offset Overlap.c) (fw_offset Overlap.c + fw_size Overlap.c)
       = payload
    /\ parse_entry_crc image 2 = calculate_crc32 payload.
Proof.
  apply (merge_untouched_entry_intact Overlap.targets "out.bin" Overlap.fs _
           0x110 0x210 [Overlap.a; Overlap.b; Overlap.c] 2 Overlap.c).
  - vm_compute. reflexivity.
  - vm_compute. reflexivity.
  - reflexivity.
  - intros [|[|[|j]]] e' p Hj He'; try lia. inversion He'.
Defined.

(** ** Auto-append throughout: the files end to end *)

Lemma length_concat_data_nonneg (l : list fw_entry) :
  0 <= Z.of_nat (length (concat (fw_data <$> l))).
Proof. lia. Qed.

(** Entries resolved from targets without offsets, the cursor being at or
    after the headers, lie end to end from the cursor on. *)
Lemma resolve_from_chain fs ths targets :
  Forall (fun t => t_offset t = None) targets ->
  forall cur l,
    ths <= cur -> resolve_from fs ths cur targets = Ok l ->
    Z.max cur (highest_end ths l)
    = cur + Z.of_nat (length (concat (fw_data <$> l)))
    /\ forall pre mid,
         Z.of_nat (length pre) = cur ->
         length mid = length (concat (fw_data <$> l)) ->
         copy_payloads l (pre ++ mid) = pre ++ concat (fw_data <$> l).
Proof.
  induction 1 as [|t ts Hnone Hall IH]; intros cur l Hcur Hres.
  - inversion Hres; subst. cbn. split; [lia|].
    intros pre mid _ Hmid. destruct mid; [done|discriminate].
  - cbn [resolve_from] in Hres. rewrite Hnone in Hres.
    destruct (contents fs !! t_path t) as [d|]; [|done].
    cbn [resolve_offset] in Hres. rewrite Z.max_l in Hres by lia.
    destruct (resolve_from fs ths _ ts) as [rest|] eqn:E; [|done].
    inversion Hres; subst; clear Hres.
    destruct (IH (cur + Z.of_nat (length d)) rest ltac:(lia) E) as [Hmax Hcopy].
    rewrite fmap_cons. cbn [concat highest_end foldr fw_end fw_offset fw_size fw_data].
    fold (highest_end ths rest). rewrite length_app.
    unfold fw_end at 1. cbn [fw_offset fw_size]. split; [lia|].
    intros pre mid Hpre Hmid.
    cbn [copy_payloads fold_left fw_offset fw_size fw_data].
    fold (copy_payloads rest).
    rewrite <- (take_drop (length d) mid) at 1.
    rewrite (slice_assign_middle pre (take (length d) mid)
               (drop (length d) mid) d)
      by (rewrite ?length_take; lia).
    rewrite (app_assoc pre d). rewrite Hcopy.
    + by rewrite <- app_assoc.
    + rewrite length_app. lia.
    + rewrite length_drop. lia.
Qed.

(** X13: When no target carries an offset, the image is the headers followed
    by the source files end to end in input order, with neither gap nor
    overlap, and its size is the header size plus the sizes of the
    files. *)
Theorem merge_auto_append_concatenates (targets : list target) (out : string)
  (fs fs' : filesystem) (headerSize totalSize : Z) :
  Forall (fun t => t_offset t = None) targets ->
  merge_binaries targets out fs = (fs', Ok (headerSize, totalSize)) ->
  exists image payloads,
    contents fs' !! out = Some image
    /\ length payloads = length targets
    /\ (forall i t, targets !! i = Some t ->
          exists d, payloads !! i = Some d
                    /\ contents fs !! t_path t = Some d)
    /\ totalSize = headerSize + Z.of_nat (length (concat payloads))
    /\ slice image headerSize totalSize = concat payloads.
Proof.
  intros Hauto H.
  apply merge_ok_image in H as (l & Hl & -> & -> & Hfit & Himg).
  set (hsz := header_size_of (Z.of_nat (length targets))) in *.
  pose proof Hl as Hres. rewrite resolved_eq in Hres. fold hsz in Hres.
  destruct (resolve_from_chain fs hsz targets Hauto hsz l ltac:(lia) Hres)
    as [Hmax Hcopy].
  destruct (image_bounds _ _ _ Hl) as (Hb & Hc & _). fold hsz in Hb, Hc.
  assert (find_max_end hsz l
          = hsz + Z.of_nat (length (concat (fw_data <$> l)))) as Htot.
  { rewrite find_max_end_highest in *. lia. }
  exists (merged_image hsz l), (fw_data <$> l).
  split; [done|]. split.
  { by rewrite length_fmap, (resolved_length _ _ _ Hl). }
  split.
  { intros i t Ht.
    destruct (lookup_lt_is_Some_2 l i) as [e He].
    { rewrite (resolved_length _ _ _ Hl). by eapply lookup_lt_Some. }
    destruct (resolved_lookup _ _ _ _ _ Hl He) as (t' & Ht' & Hdata & _).
    assert (t' = t) as -> by congruence.
    exists (fw_data e). by rewrite list_lookup_fmap, He. }
  split; [done|].
  rewrite (merged_image_slice_above _ _ _ Hl) by (fold hsz; lia).
  unfold composited. fold hsz. rewrite Htot.
  replace (Z.to_nat (hsz + Z.of_nat (length (concat (fw_data <$> l)))))
    with (Z.to_nat hsz + length (concat (fw_data <$> l)))%nat by lia.
  rewrite replicate_add, Hcopy by (rewrite length_replicate; lia).
  pose proof (slice_middle (replicate (Z.to_nat hsz) x00)
                (concat (fw_data <$> l)) [] hsz
                (hsz + Z.of_nat (length (concat (fw_data <$> l))))) as Hs.
  rewrite app_nil_r in Hs. apply Hs; [rewrite length_replicate; lia | done].
Qed.

Lemma merge_auto_append_concatenates_witness :
  exists image payloads,
    contents (fst (merge_binaries
                     [ {| t_path := "a.bin"; t_offset := None |};
                       {| t_path := "b.bin"; t_offset := None |} ]
                     "out.bin" Overlap.fs)) !! "out.bin"%string = Some image
    /\ length payloads = 2%nat
    /\ (forall i t,
          [ {| t_path := "a.bin"; t_offset := None |};
            {| t_path := "b.bin"; t_offset := None |} ] !! i = Some t ->
          exists d, payloads !! i = Some d
                    /\ contents Overlap.fs !! t_path t = Some d)
    /\ 0xD4 = 0xC0 + Z.of_nat (length (concat payloads))
    /\ slice image 0xC0 0xD4 = concat payloads.
Proof.
  apply (merge_auto_append_concatenates
           [ {| t_path := "a.bin"; t_offset := None |};
             {| t_path := "b.bin"; t_offset := None |} ] "out.bin" Overlap.fs).
  - repeat constructor.
  - vm_compute. reflexivity.
Defined.

(** ** [struct] and [calculate_crc32] *)

Lemma byte_of_to_Z (b : byte) : byte_of_Z (byte_to_Z b) = b.
Proof.
  unfold byte_of_Z. rewrite Z.mod_small by apply byte_to_Z_range.
  unfold byte_to_Z. rewrite N2Z.id. by rewrite Byte.of_to_N.
Qed.

Lemma le_value_range (b : bytes) :
  0 <= le_value b < 2 ^ (8 * Z.of_nat (length b)).
Proof.
  induction b as [|x b IH]; [simpl; lia|].
  cbn [le_value length]. pose proof (byte_to_Z_range x).
  replace (8 * Z.of_nat (S (length b))) with (8 + 8 * Z.of_nat (length b)) by lia.
  rewrite Z.pow_add_r by lia. change (2 ^ 8) with 256. nia.
Qed.

Lemma le_bytes_le_value (b : bytes) : le_bytes (length b) (le_value b) = b.
Proof.
  induction b as [|x b IH]; [done|].
  cbn [le_value length le_bytes]. pose proof (byte_to_Z_range x).
  f_equal.
  - unfold byte_of_Z.
    replace ((byte_to_Z x + 256 * le_value b) mod 256) with (byte_to_Z x).
    + unfold byte_to_Z. rewrite N2Z.id. by rewrite Byte.of_to_N.
    + rewrite (Z.mul_comm 256), Z.mod_add by lia.
      symmetry. by apply Z.mod_small.
  - rewrite Z.shiftr_div_pow2 by lia. change (2 ^ 8) with 256.
    replace ((byte_to_Z x + 256 * le_value b) / 256) with (le_value b); [done|].
    rewrite (Z.mul_comm 256), Z.div_add by lia.
    rewrite (Z.div_small (byte_to_Z x)) by lia. lia.
Qed.

(** X14: Packing and unpacking an unsigned little-endian field are inverse to
    each other: [v] packs to [b] exactly when [b] unpacks to [v]. *)
Theorem struct_pack_unpack (width : nat) (v : Z) (b : bytes) :
  struct_pack width v = Ok b <-> struct_unpack width b = Ok v.
Proof.
  unfold struct_unpack. split.
  - intros H. destruct (decide (fits_width width v)) as [Hv|Hv].
    + rewrite struct_pack_ok in H by done. injection H as <-.
      rewrite decide_True by apply length_le_bytes.
      by rewrite le_value_le_bytes_id.
    + by rewrite struct_pack_err in H.
  - case_decide as Hlen; [|done]. intros [= <-]. subst width.
    rewrite struct_pack_ok by apply le_value_range.
    by rewrite le_bytes_le_value.
Qed.

(** X15: The checksum is an unsigned 32-bit value, and the mask that
    [calculate_crc32] applies changes nothing: the value is the one of
    [binascii.crc32]. *)
Theorem calculate_crc32_unsigned (data : bytes) :
  0 <= calculate_crc32 data < 2 ^ 32
  /\ calculate_crc32 data = binascii_crc32 data.
Proof.
  assert (0 <= binascii_crc32 data < 2 ^ 32) as Hr.
  { unfold binascii_crc32. apply lxor_range; [lia| |lia].
    assert (0 <= 0xFFFFFFFF < 2 ^ 32) as H0 by lia.
    generalize dependent 0xFFFFFFFF.
    induction data as [|b data IH]; intros r Hr0; [done|].
    cbn [fold_left]. apply IH. by apply crc32_update_range. }
  assert (calculate_crc32 data = binascii_crc32 data) as Heq.
  { unfold calculate_crc32. change 0xFFFFFFFF with (Z.ones 32).
    rewrite Z.land_ones by lia. apply Z.mod_small. done. }
  by rewrite Heq.
Qed.

(** * Properties of the pre-flight check and of [run_merge] *)

Lemma check_previous_reports (k : nat) (offset end_offset : Z)
  (filepath : string) (intervals : list interval) :
  forall acc,
    check_previous offset end_offset filepath intervals acc
    = acc ++ omap (report (k, offset, end_offset, filepath)) intervals.
Proof.
  unfold check_previous.
  induction intervals as [|[[[pi ps] pe] pp] ivs IH]; intros acc.
  - cbn. by rewrite app_nil_r.
  - cbn [fold_left omap list_omap]. rewrite IH. unfold report at 2.
    destruct ((offset <? pe) && (end_offset >? ps)); [|done].
    by rewrite <- app_assoc.
Qed.

(** The loop on targets that can all be read: it walks the entries that
    step 1 of the merge resolves. *)
Lemma preflight_loop_readable fs ths (ts : list target) :
  forall k st l,
    resolve_from fs ths (pf_current_offset st) ts = Ok l ->
    for_each_io (preflight_body ths) (zip (seq k (length ts)) ts) st fs
    = (fs, Ok {| pf_current_offset :=
                   default (pf_current_offset st) (fw_end <$> last l);
                 pf_intervals := pf_intervals st ++ intervals_of k ts l;
                 pf_overlaps :=
                   pf_overlaps st
                   ++ reports (pf_intervals st) (intervals_of k ts l);
                 pf_skipped := pf_skipped st |}).
Proof.
  induction ts as [|t ts IH]; intros k st l Hres.
  - inversion Hres; subst. cbn. rewrite !app_nil_r. by destruct st.
  - cbn [resolve_from] in Hres.
    destruct (contents fs !! t_path t) as [d|] eqn:Ed; [|done].
    destruct (resolve_from fs ths _ ts) as [rest|] eqn:E; [|done].
    inversion Hres; subst; clear Hres.
    cbn [length seq zip zip_with for_each_io].
    unfold mbind at 1, IO_bind. unfold preflight_body at 1, getsize.
    rewrite Ed.
    fold (resolve_offset ths (pf_current_offset st) (t_offset t)).
    set (o := resolve_offset ths (pf_current_offset st) (t_offset t)) in *.
    rewrite (IH (S k) _ rest) by exact E.
    cbn [pf_current_offset pf_intervals pf_overlaps pf_skipped].
    rewrite (check_previous_reports k).
    cbn [intervals_of reports fw_offset fw_end fw_size].
    unfold fw_end at 2 3. cbn [fw_offset fw_size].
    rewrite <- !app_assoc. do 3 f_equal.
    destruct rest as [|r rest]; [done|]. rewrite last_cons_cons.
    destruct (proj2 (last_is_Some (r :: rest)) ltac:(done)) as [x ->]. done.
Qed.

(** The loop on any targets: it never raises and never writes, and a
    target is either given an interval or skipped. *)
Lemma preflight_loop_total fs ths (ts : list target) :
  forall k st,
    exists st',
      for_each_io (preflight_body ths) (zip (seq k (length ts)) ts) st fs
      = (fs, Ok st')
      /\ (forall p, p ∈ pf_skipped st' ->
            p ∈ pf_skipped st \/ exists t, t ∈ ts /\ t_path t = p)
      /\ (length (pf_intervals st') + length (pf_skipped st')
          = length (pf_intervals st) + length (pf_skipped st) + length ts)%nat.
Proof.
  induction ts as [|t ts IH]; intros k st.
  - exists st. cbn. split; [done|]. split; [by left|lia].
  - cbn [length seq zip zip_with for_each_io].
    unfold mbind at 1, IO_bind. unfold preflight_body at 1, getsize.
    destruct (contents fs !! t_path t) as [d|] eqn:Ed.
    + match goal with
      | |- context [for_each_io _ _ ?s fs] =>
          destruct (IH (S k) s) as (st' & Hrun & Hsk & Hlen)
      end.
      exists st'. split; [exact Hrun|]. split.
      * intros p Hp. destruct (Hsk p Hp) as [?|(t' & ? & ?)]; [by left|].
        right. exists t'. split; [by apply elem_of_cons; right|done].
      * rewrite Hlen. cbn [pf_intervals pf_skipped]. rewrite length_app.
        simpl. lia.
    + match goal with
      | |- context [for_each_io _ _ ?s fs] =>
          destruct (IH (S k) s) as (st' & Hrun & Hsk & Hlen)
      end.
      exists st'. split; [exact Hrun|]. split.
      * intros p Hp. destruct (Hsk p Hp) as [Hin|(t' & ? & ?)].
        -- cbn [pf_skipped] in Hin.
           apply elem_of_app in Hin as [?|Hin%list_elem_of_singleton];
             [by left|].
           right. exists t. split; [by apply elem_of_cons; left|done].
        -- right. exists t'. split; [by apply elem_of_cons; right|done].
      * rewrite Hlen. cbn [pf_intervals pf_skipped]. rewrite length_app.
        simpl. lia.
Qed.

Lemma intervals_of_lookup (ts : list target) :
  forall k l i iv,
    length l = length ts ->
    intervals_of k ts l !! i = Some iv
    <-> exists t e, ts !! i = Some t /\ l !! i = Some e
                    /\ iv = ((k + i)%nat, fw_offset e, fw_end e, t_path t).
Proof.
  induction ts as [|t ts IH]; intros k l i iv Hlen.
  - destruct l; [|done]. cbn. split; [done|]. by intros (? & ? & ? & _).
  - destruct l as [|e l]; [done|]. cbn [intervals_of].
    destruct i as [|i].
    + cbn. replace (k + 0)%nat with k by lia. split.
      * intros [= <-]. by exists t, e.
      * intros (t' & e' & [= <-] & [= <-] & ->). done.
    + cbn [lookup list_lookup]. rewrite IH by (simpl in Hlen; lia).
      replace (S k + i)%nat with (k + S i)%nat by lia. done.
Qed.

Lemma length_intervals_of (ts : list target) :
  forall k l, length l = length ts -> length (intervals_of k ts l) = length ts.
Proof.
  induction ts as [|t ts IH]; intros k [|e l] Hlen; try done.
  cbn. f_equal. apply IH. simpl in Hlen. lia.
Qed.

(** A report is made for a pair of intervals, the earlier one first. *)
Lemma elem_of_reports (new : list interval) :
  forall earlier ov,
    ov ∈ reports earlier new
    <-> (exists j iv prev, new !! j = Some iv /\ prev ∈ earlier
                           /\ report iv prev = Some ov)
        \/ (exists i j iv prev, (i < j)%nat /\ new !! i = Some prev
                                /\ new !! j = Some iv
                                /\ report iv prev = Some ov).
Proof.
  induction new as [|iv0 rest IH]; intros earlier ov.
  - cbn. split; [by intros ?%elem_of_nil|].
    intros [(j & ? & ? & ? & _)|(i & j & ? & ? & _ & ? & _)]; done.
  - cbn [reports]. rewrite elem_of_app, list_elem_of_omap, IH. split.
    + intros [(prev & Hin & Hr)|[(j & iv & prev & Hj & Hin & Hr)
                                 |(i & j & iv & prev & Hij & Hi & Hj & Hr)]].
      * left. by exists 0%nat, iv0, prev.
      * apply elem_of_app in Hin as [Hin|Hin%list_elem_of_singleton].
        -- left. by exists (S j), iv, prev.
        -- subst prev. right. exists 0%nat, (S j), iv, iv0.
           split; [lia|]. done.
      * right. exists (S i), (S j), iv, prev. split; [lia|]. done.
    + intros [(j & iv & prev & Hj & Hin & Hr)
             |(i & j & iv & prev & Hij & Hi & Hj & Hr)].
      * destruct j as [|j].
        -- injection Hj as <-. left. by exists prev.
        -- right. left. exists j, iv, prev. split; [done|].
           split; [|done]. apply elem_of_app. by left.
      * destruct j as [|j]; [lia|]. destruct i as [|i].
        -- injection Hi as <-. right. left. exists j, iv, iv0.
           split; [done|]. split; [|done]. apply elem_of_app. right.
           by apply list_elem_of_singleton.
        -- right. right. exists i, j, iv, prev. split; [lia|]. done.
Qed.

Lemma preflight_readable fs targets l :
  resolved fs targets = Ok l ->
  let ths := header_size_of (Z.of_nat (length targets)) in
  preflight targets fs
  = (fs, Ok {| pf_current_offset := default ths (fw_end <$> last l);
               pf_intervals := intervals_of 0 targets l;
               pf_overlaps := reports [] (intervals_of 0 targets l);
               pf_skipped := [] |}).
Proof.
  rewrite resolved_eq. intros Hl ths. unfold preflight.
  fold (header_size_of (Z.of_nat (length targets))). fold ths. cbv zeta.
  by rewrite (preflight_loop_readable fs ths targets 0
                {| pf_current_offset := ths; pf_intervals := [];
                   pf_overlaps := []; pf_skipped := [] |} l Hl).
Qed.

(** X16: When every source can be read, the pre-flight check computes for
    each target the very range that the merge resolves for it: the
    interval of index [i] is (i, offset, offset + size, path) of entry
    [i], and no target is skipped. *)
Theorem preflight_agrees_with_merge (targets : list target) (fs : filesystem)
  (l : list fw_entry) :
  resolved fs targets = Ok l ->
  exists st,
    preflight targets fs = (fs, Ok st)
    /\ pf_skipped st = []
    /\ length (pf_intervals st) = length targets
    /\ forall i t e, targets !! i = Some t -> l !! i = Some e ->
         pf_intervals st !! i
         = Some (i, fw_offset e, fw_offset e + fw_size e, t_path t).
Proof.
  intros Hl. eexists. split; [apply (preflight_readable _ _ _ Hl)|].
  cbn [pf_skipped pf_intervals]. split; [done|].
  pose proof (resolved_length _ _ _ Hl) as Hlen.
  split; [by apply length_intervals_of|].
  intros i t e Ht He. apply intervals_of_lookup; [done|]. by exists t, e.
Qed.

Lemma preflight_agrees_with_merge_witness :
  exists st,
    preflight Overlap.targets Overlap.fs = (Overlap.fs, Ok st)
    /\ pf_skipped st = []
    /\ length (pf_intervals st) = length Overlap.targets
    /\ forall i t e,
         Overlap.targets !! i = Some t ->
         [Overlap.a; Overlap.b; Overlap.c] !! i = Some e ->
         pf_intervals st !! i
         = Some (i, fw_offset e, fw_offset e + fw_size e, t_path t).
Proof.
  apply (preflight_agrees_with_merge Overlap.targets Overlap.fs
           [Overlap.a; Overlap.b; Overlap.c]).
  vm_compute. reflexivity.
Defined.

Lemma report_Some (iv prev : interval) (ov : overlap) :
  report iv prev = Some ov
  <-> iv.1.1.2 < prev.1.2 /\ prev.1.1.2 < iv.1.2
      /\ ov = {| ov_prev_path := prev.2; ov_path := iv.2;
                 ov_prev_start := prev.1.1.2; ov_prev_end := prev.1.2;
                 ov_start := iv.1.1.2; ov_end := iv.1.2 |}.
Proof.
  destruct iv as [[[k o] e] p], prev as [[[pk ps] pe] pp]. cbn.
  destruct (o <? pe) eqn:E1; destruct (e >? ps) eqn:E2; cbn;
    try apply Z.ltb_lt in E1; try apply Z.ltb_ge in E1;
    try (apply Z.gtb_lt in E2); try (rewrite Z.gtb_ltb in E2; apply Z.ltb_ge in E2);
    split; try (intros [= <-]; repeat split; lia); try (intros (? & ? & ->); done);
    try (intros (? & ? & _); lia); try done.
Qed.

(** X17: The overlaps reported by the pre-flight check are exactly the pairs
    of entries, the one earlier in the input first, whose resolved ranges
    satisfy start_j < end_i and start_i < end_j. *)
Theorem preflight_reports_intersections (targets : list target)
  (fs fs' : filesystem) (l : list fw_entry) (st : preflight_state)
  (ov : overlap) :
  resolved fs targets = Ok l ->
  preflight targets fs = (fs', Ok st) ->
  ov ∈ pf_overlaps st
  <-> exists i j ti tj ei ej,
        (i < j)%nat
        /\ targets !! i = Some ti /\ targets !! j = Some tj
        /\ l !! i = Some ei /\ l !! j = Some ej
        /\ fw_offset ej < fw_offset ei + fw_size ei
        /\ fw_offset ei < fw_offset ej + fw_size ej
        /\ ov = {| ov_prev_path := t_path ti; ov_path := t_path tj;
                   ov_prev_start := fw_offset ei;
                   ov_prev_end := fw_offset ei + fw_size ei;
                   ov_start := fw_offset ej;
                   ov_end := fw_offset ej + fw_size ej |}.
Proof.
  intros Hl Hrun. rewrite (preflight_readable _ _ _ Hl) in Hrun.
  injection Hrun as <- <-. cbn [pf_overlaps].
  pose proof (resolved_length _ _ _ Hl) as Hlen.
  rewrite elem_of_reports. split.
  - intros [(j & iv & prev & _ & Hin & _)
           |(i & j & iv & prev & Hij & Hi & Hj & Hr)];
      [by apply elem_of_nil in Hin|].
    apply intervals_of_lookup in Hi as (ti & ei & Hti & Hei & ->); [|done].
    apply intervals_of_lookup in Hj as (tj & ej & Htj & Hej & ->); [|done].
    apply report_Some in Hr as (H1 & H2 & ->). cbn in H1, H2 |- *.
    exists i, j, ti, tj, ei, ej. unfold fw_end in *. done.
  - intros (i & j & ti & tj & ei & ej & Hij & Hti & Htj & Hei & Hej
            & H1 & H2 & ->).
    right. exists i, j, (j, fw_offset ej, fw_end ej, t_path tj),
             (i, fw_offset ei, fw_end ei, t_path ti).
    split; [done|].
    split; [apply intervals_of_lookup; [done|]; by exists ti, ei|].
    split; [apply intervals_of_lookup; [done|]; by exists tj, ej|].
    apply report_Some. cbn. unfold fw_end. done.
Qed.

Lemma preflight_reports_intersections_witness :
  {| ov_prev_path := "a.bin"; ov_path := "c.bin";
     ov_prev_start := 0x200; ov_prev_end := 0x210;
     ov_start := 0x204; ov_end := 0x208 |} ∈ pf_overlaps overlap_preflight
  <-> exists i j ti tj ei ej,
        (i < j)%nat
        /\ Overlap.targets !! i = Some ti /\ Overlap.targets !! j = Some tj
        /\ [Overlap.a; Overlap.b; Overlap.c] !! i = Some ei
        /\ [Overlap.a; Overlap.b; Overlap.c] !! j = Some ej
        /\ fw_offset ej < fw_offset ei + fw_size ei
        /\ fw_offset ei < fw_offset ej + fw_size ej
        /\ {| ov_prev_path := "a.bin"; ov_path := "c.bin";
              ov_prev_start := 0x200; ov_prev_end := 0x210;
              ov_start := 0x204; ov_end := 0x208 |}
           = {| ov_prev_path := t_path ti; ov_path := t_path tj;
                ov_prev_start := fw_offset ei;
                ov_prev_end := fw_offset ei + fw_size ei;
                ov_start := fw_offset ej;
                ov_end := fw_offset ej + fw_size ej |}.
Proof.
  apply (preflight_reports_intersections Overlap.targets Overlap.fs Overlap.fs
           [Overlap.a; Overlap.b; Overlap.c] overlap_preflight);
    vm_compute; reflexivity.
Defined.

Lemma preflight_total (targets : list target) (fs : filesystem) :
  exists st,
    preflight targets fs = (fs, Ok st)
    /\ (forall p, p ∈ pf_skipped st -> exists t, t ∈ targets /\ t_path t = p)
    /\ (length (pf_intervals st) + length (pf_skipped st)
        = length targets)%nat.
Proof.
  unfold preflight.
  destruct (preflight_loop_total fs
              (0x20 + Z.of_nat (length targets) * 0x50) targets 0
              {| pf_current_offset := 0x20 + Z.of_nat (length targets) * 0x50;
                 pf_intervals := []; pf_overlaps := []; pf_skipped := [] |})
    as (st & Hrun & Hsk & Hlen).
  exists st. split; [exact Hrun|]. split; [|exact Hlen].
  intros p Hp. destruct (Hsk p Hp) as [Hin|?]; [|done].
  by apply elem_of_nil in Hin.
Qed.


(** X19: When the pre-flight check reports no overlap and the merge returns,
    every source file is in the image as it is: the range that entry
    header [i] records holds the file of target [i], byte for byte, and
    the recorded checksum is the CRC-32 of that file. *)
Theorem preflight_clean_merge_intact (targets : list target) (out : string)
  (fs fs0 fs' : filesystem) (st : preflight_state)
  (headerSize totalSize : Z) (i : nat) (t : target) :
  preflight targets fs = (fs0, Ok st) -> pf_overlaps st = [] ->
  merge_binaries targets out fs = (fs', Ok (headerSize, totalSize)) ->
  targets !! i = Some t ->
  exists image payload,
    contents fs' !! out = Some image
    /\ contents fs !! t_path t = Some payload
    /\ parse_entry_size image i = Z.of_nat (length payload)
    /\ slice image (parse_entry_offset image i)
         (parse_entry_offset image i + parse_entry_size image i) = payload
    /\ parse_entry_crc image i = calculate_crc32 payload.
Proof.
  intros Hrun Hclean H Ht.
  apply merge_ok_image in H as (l & Hl & -> & -> & Hfit & Himg).
  rewrite (preflight_readable _ _ _ Hl) in Hrun.
  injection Hrun as _ <-. cbn [pf_overlaps] in Hclean.
  pose proof (resolved_length _ _ _ Hl) as Hlen.
  destruct (lookup_lt_is_Some_2 l i) as [e He].
  { rewrite Hlen. by eapply lookup_lt_Some. }
  destruct (resolved_lookup _ _ _ _ _ Hl He) as (t' & Ht' & Hdata & Hsz & _).
  assert (t' = t) as -> by congruence.
  assert (forall j e' p, (i < j)%nat -> l !! j = Some e' ->
                         covers e p -> ~ covers e' p) as Hlast.
  { intros j e' p Hij He' Hc Hc'.
    destruct (lookup_lt_is_Some_2 targets j) as [tj Htj].
    { rewrite <- Hlen. by eapply lookup_lt_Some. }
    assert ({| ov_prev_path := t_path t; ov_path := t_path tj;
               ov_prev_start := fw_offset e; ov_prev_end := fw_end e;
               ov_start := fw_offset e'; ov_end := fw_end e' |}
            ∈ reports [] (intervals_of 0 targets l)) as Hin.
    { apply elem_of_reports. right.
      exists i, j, (j, fw_offset e', fw_end e', t_path tj),
             (i, fw_offset e, fw_end e, t_path t).
      split; [done|].
      split; [apply intervals_of_lookup; [done|]; by exists t, e|].
      split; [apply intervals_of_lookup; [done|]; by exists tj, e'|].
      apply report_Some. cbn. unfold covers in Hc, Hc'. split; [lia|].
      split; [lia|done]. }
    rewrite Hclean in Hin. by apply elem_of_nil in Hin. }
  destruct (merged_image_untouched_entry _ _ _ _ _ Hl Hfit He Hlast)
    as [Hslice Hcrc].
  destruct (merged_image_entry_fields _ _ _ _ _ Hl Hfit He) as [Hofs Hsize].
  exists (merged_image (header_size_of (Z.of_nat (length targets))) l),
         (fw_data e).
  split; [done|]. split; [done|]. rewrite Hofs, Hsize. by rewrite <- Hsz.
Qed.

Lemma preflight_clean_merge_intact_witness :
  exists image payload,
    contents (fst (merge_binaries apart_targets "out.bin" Overlap.fs))
      !! "out.bin"%string = Some image
    /\ contents Overlap.fs !! "b.bin"%string = Some payload
    /\ parse_entry_size image 1 = Z.of_nat (length payload)
    /\ slice image (parse_entry_offset image 1)
         (parse_entry_offset image 1 + parse_entry_size image 1) = payload
    /\ parse_entry_crc image 1 = calculate_crc32 payload.
Proof.
  apply (preflight_clean_merge_intact apart_targets "out.bin" Overlap.fs
           (fst (preflight apart_targets Overlap.fs)) _
           {| pf_current_offset := 0x204;
              pf_intervals := [ (0%nat, 0xC0, 0xD0, "a.bin"%string);
                                (1%nat, 0x200, 0x204, "b.bin"%string) ];
              pf_overlaps := []; pf_skipped := [] |}
           0xC0 0x204 1 {| t_path := "b.bin"; t_offset := Some 0x200 |});
    [vm_compute; reflexivity | reflexivity | vm_compute; reflexivity
    | reflexivity].
Defined.

(** ** [run_merge] *)

(** X20: [run_merge] never raises, and it touches the file system only
    through [merge_binaries]: when it ends with a warning or a cancelled
    dialog the file system is as it was; when it ends with [Merged] or
    [MergeFailed] the save path is not empty and the result or the
    exception, and the file system left behind, are those of the merge
    of the rows that [get_data] accepted, in their order. *)
Theorem run_merge_writes_only_by_merge (rows : list (option target))
  (reply_yes : bool) (save_path : string) (fs : filesystem) :
  exists fs' o,
    run_merge rows reply_yes save_path fs = (fs', Ok o)
    /\ match o with
       | Merged header_sz total_sz =>
           save_path <> EmptyString
           /\ merge_binaries (omap id rows) save_path fs
              = (fs', Ok (header_sz, total_sz))
       | MergeFailed e =>
           save_path <> EmptyString
           /\ merge_binaries (omap id rows) save_path fs = (fs', Err e)
       | _ => fs' = fs
       end.
Proof.
  unfold run_merge. destruct rows as [|r rows]; [by eexists _, _|].
  destruct (omap id (r :: rows)) as [|t ts] eqn:Et; [by eexists _, _|].
  unfold mbind, IO_bind.
  destruct (preflight_total (t :: ts) fs) as (st & -> & _).
  destruct (match pf_overlaps st with [] => false | _ :: _ => negb reply_yes end);
    [by eexists _, _|].
  case_decide as Hs; [by eexists _, _|].
  unfold try_merge.
  destruct (merge_binaries (t :: ts) save_path fs) as [fs' [[h tot]|e]] eqn:Hm;
    by eexists _, _.
Qed.

(** X21: When two of the targets resolve to intersecting ranges and the
    overlap warning is answered with No, [run_merge] ends cancelled and
    nothing is written. *)
Theorem run_merge_declined_overlap (rows : list (option target))
  (save_path : string) (fs : filesystem) (l : list fw_entry)
  (i j : nat) (ei ej : fw_entry) :
  resolved fs (omap id rows) = Ok l ->
  (i < j)%nat -> l !! i = Some ei -> l !! j = Some ej ->
  fw_offset ej < fw_offset ei + fw_size ei ->
  fw_offset ei < fw_offset ej + fw_size ej ->
  run_merge rows false save_path fs = (fs, Ok CancelledOnOverlap).
Proof.
  intros Hl Hij Hi Hj H1 H2. unfold run_merge.
  pose proof (resolved_length _ _ _ Hl) as Hlen.
  destruct (lookup_lt_is_Some_2 (omap id rows) i) as [ti Hti].
  { rewrite <- Hlen. by eapply lookup_lt_Some. }
  destruct (lookup_lt_is_Some_2 (omap id rows) j) as [tj Htj].
  { rewrite <- Hlen. by eapply lookup_lt_Some. }
  destruct rows as [|r rows]; [done|].
  destruct (omap id (r :: rows)) as [|t ts] eqn:Et; [done|].
  unfold mbind, IO_bind. rewrite (preflight_readable _ _ _ Hl).
  cbn [pf_overlaps].
  assert ({| ov_prev_path := t_path ti; ov_path := t_path tj;
             ov_prev_start := fw_offset ei; ov_prev_end := fw_end ei;
             ov_start := fw_offset ej; ov_end := fw_end ej |}
          ∈ reports [] (intervals_of 0 (t :: ts) l)) as Hin.
  { apply elem_of_reports. right.
    exists i, j, (j, fw_offset ej, fw_end ej, t_path tj),
           (i, fw_offset ei, fw_end ei, t_path ti).
    split; [done|].
    split; [apply intervals_of_lookup; [done|]; by exists ti, ei|].
    split; [apply intervals_of_lookup; [done|]; by exists tj, ej|].
    apply report_Some. cbn. unfold fw_end. done. }
  destruct (reports [] (intervals_of 0 (t :: ts) l)); [|done].
  by apply elem_of_nil in Hin.
Qed.

Lemma run_merge_declined_overlap_witness :
  run_merge (Some <$> Overlap.targets) false "out.bin" Overlap.fs
  = (Overlap.fs, Ok CancelledOnOverlap).
Proof.
  apply (run_merge_declined_overlap (Some <$> Overlap.targets) "out.bin"
           Overlap.fs [Overlap.a; Overlap.b; Overlap.c] 0 1 Overlap.a Overlap.b);
    [vm_compute; reflexivity | lia | reflexivity | reflexivity
    | simpl; lia | simpl; lia].
Defined.

(** X22: A target that the pre-flight check skipped because its file cannot
    be read is not dropped from the merge: [run_merge] then never ends
    with [Merged], and nothing is written. *)
Theorem run_merge_unreadable_never_merged (rows : list (option target))
  (reply_yes : bool) (save_path : string) (fs fs' : filesystem)
  (o : outcome) (i : nat) (t : target) :
  omap id rows !! i = Some t -> contents fs !! t_path t = None ->
  run_merge rows reply_yes save_path fs = (fs', Ok o) ->
  fs' = fs /\ forall header_sz total_sz, o <> Merged header_sz total_sz.
Proof.
  intros Ht Hnone. unfold run_merge.
  destruct rows as [|r rows]; [done|].
  destruct (omap id (r :: rows)) as [|t0 ts] eqn:Et; [done|].
  unfold mbind, IO_bind.
  destruct (preflight_total (t0 :: ts) fs) as (st & -> & _).
  destruct (match pf_overlaps st with [] => false | _ :: _ => negb reply_yes end);
    [by intros [= <- <-]|].
  case_decide as Hs; [by intros [= <- <-]|].
  unfold try_merge. rewrite merge_binaries_closed_form, resolved_eq.
  destruct (resolve_from_unreadable fs
              (header_size_of (Z.of_nat (length (t0 :: ts))))
              (header_size_of (Z.of_nat (length (t0 :: ts))))
              (t0 :: ts) t (list_elem_of_lookup_2 _ _ _ Ht) Hnone)
    as (p & -> & _).
  by intros [= <- <-].
Qed.

Lemma run_merge_unreadable_never_merged_witness :
  fst (run_merge [Some {| t_path := "missing.bin"; t_offset := None |}]
         true "out.bin" Overlap.fs) = Overlap.fs
  /\ forall header_sz total_sz,
       MergeFailed (OSError "missing.bin") <> Merged header_sz total_sz.
Proof.
  apply (run_merge_unreadable_never_merged
           [Some {| t_path := "missing.bin"; t_offset := None |}]
           true "out.bin" Overlap.fs _ _ 0
           {| t_path := "missing.bin"; t_offset := None |});
    [reflexivity | vm_compute; reflexivity | vm_compute; reflexivity].
Defined.

(** ** [test_merger] *)

(** X23: The repository's own test passes: wherever its three input files and
    its output file can be written, [test_merger] runs through all its
    assertions without raising. *)
Theorem test_merger_passes (fs : filesystem) :
  "test_data/fw1.bin"%string ∉ unwritable fs ->
  "test_data/fw2.bin"%string ∉ unwritable fs ->
  "test_data/fw3.bin"%string ∉ unwritable fs ->
  "test_data/merged.bin"%string ∉ unwritable fs ->
  exists fs', test_merger fs = (fs', Ok tt)
              /\ contents fs' !! "test_data/merged.bin"%string = Some test_image.
Proof.
  intros H1 H2 H3 H4. unfold test_merger, create_dummy_file. cbv zeta.
  unfold mbind at 1, IO_bind. unfold write_file at 1.
  rewrite decide_False by done.
  unfold mbind at 1, IO_bind. unfold write_file at 1. cbn [unwritable].
  rewrite decide_False by done.
  unfold mbind at 1, IO_bind. unfold write_file at 1. cbn [unwritable].
  rewrite decide_False by done. cbn [contents unwritable].
  set (fs3 := {| contents := _; unwritable := unwritable fs |}).
  fold test_targets.
  destruct (merge_binaries_ext test_targets "test_data/merged.bin" fs3 test_files)
    as [Hres Himg].
  { intros [|[|[|i]]] t Ht; inversion Ht; subst; cbn [t_path contents fs3].
    - rewrite lookup_insert_ne by done. rewrite lookup_insert_ne by done.
      rewrite lookup_insert_eq. vm_compute. reflexivity.
    - rewrite lookup_insert_ne by done. rewrite lookup_insert_eq.
      vm_compute. reflexivity.
    - rewrite lookup_insert_eq. vm_compute. reflexivity. }
  { cbn [unwritable fs3 test_files]. set_solver. }
  assert (snd (merge_binaries test_targets "test_data/merged.bin" test_files)
          = Ok (0x110, 0x1110)) as Hok by (vm_compute; reflexivity).
  rewrite Hok in Hres. specialize (Himg _ Hres).
  assert (contents (fst (merge_binaries test_targets "test_data/merged.bin"
                           test_files)) !! "test_data/merged.bin"%string
          = Some test_image) as Hti by (vm_compute; reflexivity).
  rewrite Hti in Himg. clear Hok Hti.
  unfold mbind at 1, IO_bind.
  destruct (merge_binaries test_targets "test_data/merged.bin" fs3)
    as [fs4 r]. cbn [fst snd] in Hres, Himg. subst r.
  unfold mbind at 1, IO_bind. unfold read_file at 1. rewrite Himg.
  exists fs4. split; [|done].
  generalize fs4. intros f. vm_compute. reflexivity.
Qed.

Lemma test_merger_passes_witness :
  exists fs', test_merger Overlap.fs = (fs', Ok tt)
              /\ contents fs' !! "test_data/merged.bin"%string = Some test_image.
Proof.
  apply (test_merger_passes Overlap.fs); apply not_elem_of_empty.
Defined.
